(** * Bitcoin-Tracker: the dashboard component [App.tsx]

    A shallow embedding of the pure and stateful logic of the React
    component [App] (favorites store, list poll, search filter, card and
    detail rendering decisions), followed by the properties established
    for it.

    Conventions of the embedding:
    - a JavaScript string is the list of its UTF-16 code units ([N]);
    - a JavaScript number is an IEEE 754 binary64 value (Rocq's primitive
      [float]);
    - [null]/[undefined] for an optional field is [None];
    - React state is an explicit record, every setter a record update, and
      [await]/[try]/[catch]/[finally] a small state-and-exception monad;
    - [localStorage] is a finite map from keys to stored text. *)

From Stdlib Require Import ZArith NArith List Bool Lia Ascii String.
From Stdlib Require Import DecimalPos.
From Stdlib Require Import Floats.
From stdpp Require Import base option list gmap.

Local Open Scope N_scope.

(** ** JavaScript strings *)

Module JS.

(** A string value: its sequence of UTF-16 code units. *)
Definition jsstring : Type := list N.

(** The code units of an ASCII literal of the source. *)
Definition u (s : String.string) : jsstring :=
  map N_of_ascii (list_ascii_of_string s).

(** Every code unit of a well-formed string fits 16 bits. *)
Definition code_unit (c : N) : Prop := c < 65536.
Definition well_formed (s : jsstring) : Prop := Forall code_unit s.

(** *** Case conversion

    [String.prototype.toLowerCase] is the default case conversion of the
    Unicode Standard on the code points of the string, with the
    locale-insensitive mappings of the Unicode Character Database: the
    simple lower-case mappings, the one unconditional special casing
    (U+0130) and the one conditional one (the final sigma). The tables
    below are those of version 14.0 of the database. *)

(** The simple lower-case mappings: [(lo, hi, step, to)] maps the code
    points [lo], [lo + step], ..., [hi] to [to], [to + step], ... *)
Definition lower_ranges : list (N * N * N * N) :=
  [
    (65, 90, 1, 97); (192, 214, 1, 224); (216, 222, 1, 248);
    (256, 302, 2, 257); (306, 310, 2, 307); (313, 327, 2, 314);
    (330, 374, 2, 331); (376, 376, 1, 255); (377, 381, 2, 378);
    (385, 385, 1, 595); (386, 388, 2, 387); (390, 390, 1, 596);
    (391, 391, 1, 392); (393, 394, 1, 598); (395, 395, 1, 396);
    (398, 398, 1, 477); (399, 399, 1, 601); (400, 400, 1, 603);
    (401, 401, 1, 402); (403, 403, 1, 608); (404, 404, 1, 611);
    (406, 406, 1, 617); (407, 407, 1, 616); (408, 408, 1, 409);
    (412, 412, 1, 623); (413, 413, 1, 626); (415, 415, 1, 629);
    (416, 420, 2, 417); (422, 422, 1, 640); (423, 423, 1, 424);
    (425, 425, 1, 643); (428, 428, 1, 429); (430, 430, 1, 648);
    (431, 431, 1, 432); (433, 434, 1, 650); (435, 437, 2, 436);
    (439, 439, 1, 658); (440, 440, 1, 441); (444, 444, 1, 445);
    (452, 452, 1, 454); (453, 453, 1, 454); (455, 455, 1, 457);
    (456, 456, 1, 457); (458, 458, 1, 460); (459, 475, 2, 460);
    (478, 494, 2, 479); (497, 497, 1, 499); (498, 500, 2, 499);
    (502, 502, 1, 405); (503, 503, 1, 447); (504, 542, 2, 505);
    (544, 544, 1, 414); (546, 562, 2, 547); (570, 570, 1, 11365);
    (571, 571, 1, 572); (573, 573, 1, 410); (574, 574, 1, 11366);
    (577, 577, 1, 578); (579, 579, 1, 384); (580, 580, 1, 649);
    (581, 581, 1, 652); (582, 590, 2, 583); (880, 882, 2, 881);
    (886, 886, 1, 887); (895, 895, 1, 1011); (902, 902, 1, 940);
    (904, 906, 1, 941); (908, 908, 1, 972); (910, 911, 1, 973);
    (913, 929, 1, 945); (931, 939, 1, 963); (975, 975, 1, 983);
    (984, 1006, 2, 985); (1012, 1012, 1, 952); (1015, 1015, 1, 1016);
    (1017, 1017, 1, 1010); (1018, 1018, 1, 1019); (1021, 1023, 1, 891);
    (1024, 1039, 1, 1104); (1040, 1071, 1, 1072); (1120, 1152, 2, 1121);
    (1162, 1214, 2, 1163); (1216, 1216, 1, 1231); (1217, 1229, 2, 1218);
    (1232, 1326, 2, 1233); (1329, 1366, 1, 1377); (4256, 4293, 1, 11520);
    (4295, 4295, 1, 11559); (4301, 4301, 1, 11565); (5024, 5103, 1, 43888);
    (5104, 5109, 1, 5112); (7312, 7354, 1, 4304); (7357, 7359, 1, 4349);
    (7680, 7828, 2, 7681); (7838, 7838, 1, 223); (7840, 7934, 2, 7841);
    (7944, 7951, 1, 7936); (7960, 7965, 1, 7952); (7976, 7983, 1, 7968);
    (7992, 7999, 1, 7984); (8008, 8013, 1, 8000); (8025, 8031, 2, 8017);
    (8040, 8047, 1, 8032); (8072, 8079, 1, 8064); (8088, 8095, 1, 8080);
    (8104, 8111, 1, 8096); (8120, 8121, 1, 8112); (8122, 8123, 1, 8048);
    (8124, 8124, 1, 8115); (8136, 8139, 1, 8050); (8140, 8140, 1, 8131);
    (8152, 8153, 1, 8144); (8154, 8155, 1, 8054); (8168, 8169, 1, 8160);
    (8170, 8171, 1, 8058); (8172, 8172, 1, 8165); (8184, 8185, 1, 8056);
    (8186, 8187, 1, 8060); (8188, 8188, 1, 8179); (8486, 8486, 1, 969);
    (8490, 8490, 1, 107); (8491, 8491, 1, 229); (8498, 8498, 1, 8526);
    (8544, 8559, 1, 8560); (8579, 8579, 1, 8580); (9398, 9423, 1, 9424);
    (11264, 11311, 1, 11312); (11360, 11360, 1, 11361);
    (11362, 11362, 1, 619); (11363, 11363, 1, 7549); (11364, 11364, 1, 637);
    (11367, 11371, 2, 11368); (11373, 11373, 1, 593); (11374, 11374, 1, 625);
    (11375, 11375, 1, 592); (11376, 11376, 1, 594); (11378, 11378, 1, 11379);
    (11381, 11381, 1, 11382); (11390, 11391, 1, 575);
    (11392, 11490, 2, 11393); (11499, 11501, 2, 11500);
    (11506, 11506, 1, 11507); (42560, 42604, 2, 42561);
    (42624, 42650, 2, 42625); (42786, 42798, 2, 42787);
    (42802, 42862, 2, 42803); (42873, 42875, 2, 42874);
    (42877, 42877, 1, 7545); (42878, 42886, 2, 42879);
    (42891, 42891, 1, 42892); (42893, 42893, 1, 613);
    (42896, 42898, 2, 42897); (42902, 42920, 2, 42903);
    (42922, 42922, 1, 614); (42923, 42923, 1, 604); (42924, 42924, 1, 609);
    (42925, 42925, 1, 620); (42926, 42926, 1, 618); (42928, 42928, 1, 670);
    (42929, 42929, 1, 647); (42930, 42930, 1, 669); (42931, 42931, 1, 43859);
    (42932, 42946, 2, 42933); (42948, 42948, 1, 42900);
    (42949, 42949, 1, 642); (42950, 42950, 1, 7566); (42951, 42953, 2, 42952);
    (42960, 42960, 1, 42961); (42966, 42968, 2, 42967);
    (42997, 42997, 1, 42998); (65313, 65338, 1, 65345);
    (66560, 66599, 1, 66600); (66736, 66771, 1, 66776);
    (66928, 66964, 2, 66967); (66929, 66938, 1, 66968);
    (66941, 66954, 1, 66980); (66957, 66962, 1, 66996);
    (66965, 66965, 1, 67004); (68736, 68786, 1, 68800);
    (71840, 71871, 1, 71872); (93760, 93791, 1, 93792);
    (125184, 125217, 1, 125218)
  ].

(** The code points that are cased and not case-ignorable, as ranges. *)
Definition cased_ranges : list (N * N) :=
  [
    (65, 90); (97, 122); (170, 170); (181, 181); (186, 186); (192, 214);
    (216, 246); (248, 442); (444, 447); (452, 659); (661, 687); (880, 883);
    (886, 887); (891, 893); (895, 895); (902, 902); (904, 906); (908, 908);
    (910, 929); (931, 1013); (1015, 1153); (1162, 1327); (1329, 1366);
    (1376, 1416); (4256, 4293); (4295, 4295); (4301, 4301); (4304, 4346);
    (4349, 4351); (5024, 5109); (5112, 5117); (7296, 7304); (7312, 7354);
    (7357, 7359); (7424, 7467); (7531, 7543); (7545, 7578); (7680, 7957);
    (7960, 7965); (7968, 8005); (8008, 8013); (8016, 8023); (8025, 8025);
    (8027, 8027); (8029, 8029); (8031, 8061); (8064, 8116); (8118, 8124);
    (8126, 8126); (8130, 8132); (8134, 8140); (8144, 8147); (8150, 8155);
    (8160, 8172); (8178, 8180); (8182, 8188); (8450, 8450); (8455, 8455);
    (8458, 8467); (8469, 8469); (8473, 8477); (8484, 8484); (8486, 8486);
    (8488, 8488); (8490, 8493); (8495, 8500); (8505, 8505); (8508, 8511);
    (8517, 8521); (8526, 8526); (8544, 8575); (8579, 8580); (9398, 9449);
    (11264, 11387); (11390, 11492); (11499, 11502); (11506, 11507);
    (11520, 11557); (11559, 11559); (11565, 11565); (42560, 42605);
    (42624, 42651); (42786, 42863); (42865, 42887); (42891, 42894);
    (42896, 42954); (42960, 42961); (42963, 42963); (42965, 42969);
    (42997, 42998); (43002, 43002); (43824, 43866); (43872, 43880);
    (43888, 43967); (64256, 64262); (64275, 64279); (65313, 65338);
    (65345, 65370); (66560, 66639); (66736, 66771); (66776, 66811);
    (66928, 66938); (66940, 66954); (66956, 66962); (66964, 66965);
    (66967, 66977); (66979, 66993); (66995, 67001); (67003, 67004);
    (68736, 68786); (68800, 68850); (71840, 71903); (93760, 93823);
    (119808, 119892); (119894, 119964); (119966, 119967); (119970, 119970);
    (119973, 119974); (119977, 119980); (119982, 119993); (119995, 119995);
    (119997, 120003); (120005, 120069); (120071, 120074); (120077, 120084);
    (120086, 120092); (120094, 120121); (120123, 120126); (120128, 120132);
    (120134, 120134); (120138, 120144); (120146, 120485); (120488, 120512);
    (120514, 120538); (120540, 120570); (120572, 120596); (120598, 120628);
    (120630, 120654); (120656, 120686); (120688, 120712); (120714, 120744);
    (120746, 120770); (120772, 120779); (122624, 122633); (122635, 122654);
    (125184, 125251); (127280, 127305); (127312, 127337); (127344, 127369)
  ].

(** The case-ignorable code points, as ranges. *)
Definition case_ignorable_ranges : list (N * N) :=
  [
    (39, 39); (46, 46); (58, 58); (94, 94); (96, 96); (168, 168); (173, 173);
    (175, 175); (180, 180); (183, 184); (688, 879); (884, 885); (890, 890);
    (900, 901); (903, 903); (1155, 1161); (1369, 1369); (1375, 1375);
    (1425, 1469); (1471, 1471); (1473, 1474); (1476, 1477); (1479, 1479);
    (1524, 1524); (1536, 1541); (1552, 1562); (1564, 1564); (1600, 1600);
    (1611, 1631); (1648, 1648); (1750, 1757); (1759, 1768); (1770, 1773);
    (1807, 1807); (1809, 1809); (1840, 1866); (1958, 1968); (2027, 2037);
    (2042, 2042); (2045, 2045); (2070, 2093); (2137, 2139); (2184, 2184);
    (2192, 2193); (2200, 2207); (2249, 2306); (2362, 2362); (2364, 2364);
    (2369, 2376); (2381, 2381); (2385, 2391); (2402, 2403); (2417, 2417);
    (2433, 2433); (2492, 2492); (2497, 2500); (2509, 2509); (2530, 2531);
    (2558, 2558); (2561, 2562); (2620, 2620); (2625, 2626); (2631, 2632);
    (2635, 2637); (2641, 2641); (2672, 2673); (2677, 2677); (2689, 2690);
    (2748, 2748); (2753, 2757); (2759, 2760); (2765, 2765); (2786, 2787);
    (2810, 2815); (2817, 2817); (2876, 2876); (2879, 2879); (2881, 2884);
    (2893, 2893); (2901, 2902); (2914, 2915); (2946, 2946); (3008, 3008);
    (3021, 3021); (3072, 3072); (3076, 3076); (3132, 3132); (3134, 3136);
    (3142, 3144); (3146, 3149); (3157, 3158); (3170, 3171); (3201, 3201);
    (3260, 3260); (3263, 3263); (3270, 3270); (3276, 3277); (3298, 3299);
    (3328, 3329); (3387, 3388); (3393, 3396); (3405, 3405); (3426, 3427);
    (3457, 3457); (3530, 3530); (3538, 3540); (3542, 3542); (3633, 3633);
    (3636, 3642); (3654, 3662); (3761, 3761); (3764, 3772); (3782, 3782);
    (3784, 3789); (3864, 3865); (3893, 3893); (3895, 3895); (3897, 3897);
    (3953, 3966); (3968, 3972); (3974, 3975); (3981, 3991); (3993, 4028);
    (4038, 4038); (4141, 4144); (4146, 4151); (4153, 4154); (4157, 4158);
    (4184, 4185); (4190, 4192); (4209, 4212); (4226, 4226); (4229, 4230);
    (4237, 4237); (4253, 4253); (4348, 4348); (4957, 4959); (5906, 5908);
    (5938, 5939); (5970, 5971); (6002, 6003); (6068, 6069); (6071, 6077);
    (6086, 6086); (6089, 6099); (6103, 6103); (6109, 6109); (6155, 6159);
    (6211, 6211); (6277, 6278); (6313, 6313); (6432, 6434); (6439, 6440);
    (6450, 6450); (6457, 6459); (6679, 6680); (6683, 6683); (6742, 6742);
    (6744, 6750); (6752, 6752); (6754, 6754); (6757, 6764); (6771, 6780);
    (6783, 6783); (6823, 6823); (6832, 6862); (6912, 6915); (6964, 6964);
    (6966, 6970); (6972, 6972); (6978, 6978); (7019, 7027); (7040, 7041);
    (7074, 7077); (7080, 7081); (7083, 7085); (7142, 7142); (7144, 7145);
    (7149, 7149); (7151, 7153); (7212, 7219); (7222, 7223); (7288, 7293);
    (7376, 7378); (7380, 7392); (7394, 7400); (7405, 7405); (7412, 7412);
    (7416, 7417); (7468, 7530); (7544, 7544); (7579, 7679); (8125, 8125);
    (8127, 8129); (8141, 8143); (8157, 8159); (8173, 8175); (8189, 8190);
    (8203, 8207); (8216, 8217); (8228, 8228); (8231, 8231); (8234, 8238);
    (8288, 8292); (8294, 8303); (8305, 8305); (8319, 8319); (8336, 8348);
    (8400, 8432); (11388, 11389); (11503, 11505); (11631, 11631);
    (11647, 11647); (11744, 11775); (11823, 11823); (12293, 12293);
    (12330, 12333); (12337, 12341); (12347, 12347); (12441, 12446);
    (12540, 12542); (40981, 40981); (42232, 42237); (42508, 42508);
    (42607, 42610); (42612, 42621); (42623, 42623); (42652, 42655);
    (42736, 42737); (42752, 42785); (42864, 42864); (42888, 42890);
    (42994, 42996); (43000, 43001); (43010, 43010); (43014, 43014);
    (43019, 43019); (43045, 43046); (43052, 43052); (43204, 43205);
    (43232, 43249); (43263, 43263); (43302, 43309); (43335, 43345);
    (43392, 43394); (43443, 43443); (43446, 43449); (43452, 43453);
    (43471, 43471); (43493, 43494); (43561, 43566); (43569, 43570);
    (43573, 43574); (43587, 43587); (43596, 43596); (43632, 43632);
    (43644, 43644); (43696, 43696); (43698, 43700); (43703, 43704);
    (43710, 43711); (43713, 43713); (43741, 43741); (43756, 43757);
    (43763, 43764); (43766, 43766); (43867, 43871); (43881, 43883);
    (44005, 44005); (44008, 44008); (44013, 44013); (64286, 64286);
    (64434, 64450); (65024, 65039); (65043, 65043); (65056, 65071);
    (65106, 65106); (65109, 65109); (65279, 65279); (65287, 65287);
    (65294, 65294); (65306, 65306); (65342, 65342); (65344, 65344);
    (65392, 65392); (65438, 65439); (65507, 65507); (65529, 65531);
    (66045, 66045); (66272, 66272); (66422, 66426); (67456, 67461);
    (67463, 67504); (67506, 67514); (68097, 68099); (68101, 68102);
    (68108, 68111); (68152, 68154); (68159, 68159); (68325, 68326);
    (68900, 68903); (69291, 69292); (69446, 69456); (69506, 69509);
    (69633, 69633); (69688, 69702); (69744, 69744); (69747, 69748);
    (69759, 69761); (69811, 69814); (69817, 69818); (69821, 69821);
    (69826, 69826); (69837, 69837); (69888, 69890); (69927, 69931);
    (69933, 69940); (70003, 70003); (70016, 70017); (70070, 70078);
    (70089, 70092); (70095, 70095); (70191, 70193); (70196, 70196);
    (70198, 70199); (70206, 70206); (70367, 70367); (70371, 70378);
    (70400, 70401); (70459, 70460); (70464, 70464); (70502, 70508);
    (70512, 70516); (70712, 70719); (70722, 70724); (70726, 70726);
    (70750, 70750); (70835, 70840); (70842, 70842); (70847, 70848);
    (70850, 70851); (71090, 71093); (71100, 71101); (71103, 71104);
    (71132, 71133); (71219, 71226); (71229, 71229); (71231, 71232);
    (71339, 71339); (71341, 71341); (71344, 71349); (71351, 71351);
    (71453, 71455); (71458, 71461); (71463, 71467); (71727, 71735);
    (71737, 71738); (71995, 71996); (71998, 71998); (72003, 72003);
    (72148, 72151); (72154, 72155); (72160, 72160); (72193, 72202);
    (72243, 72248); (72251, 72254); (72263, 72263); (72273, 72278);
    (72281, 72283); (72330, 72342); (72344, 72345); (72752, 72758);
    (72760, 72765); (72767, 72767); (72850, 72871); (72874, 72880);
    (72882, 72883); (72885, 72886); (73009, 73014); (73018, 73018);
    (73020, 73021); (73023, 73029); (73031, 73031); (73104, 73105);
    (73109, 73109); (73111, 73111); (73459, 73460); (78896, 78904);
    (92912, 92916); (92976, 92982); (92992, 92995); (94031, 94031);
    (94095, 94111); (94176, 94177); (94179, 94180); (110576, 110579);
    (110581, 110587); (110589, 110590); (113821, 113822); (113824, 113827);
    (118528, 118573); (118576, 118598); (119143, 119145); (119155, 119170);
    (119173, 119179); (119210, 119213); (119362, 119364); (121344, 121398);
    (121403, 121452); (121461, 121461); (121476, 121476); (121499, 121503);
    (121505, 121519); (122880, 122886); (122888, 122904); (122907, 122913);
    (122915, 122916); (122918, 122922); (123184, 123197); (123566, 123566);
    (123628, 123631); (125136, 125142); (125252, 125259); (127995, 127999);
    (917505, 917505); (917536, 917631); (917760, 917999)
  ].

Fixpoint in_ranges (c : N) (ranges : list (N * N)) : bool :=
  match ranges with
  | [] => false
  | (lo, hi) :: ranges => (lo <=? c) && (c <=? hi) || in_ranges c ranges
  end.

Fixpoint lower_in (c : N) (ranges : list (N * N * N * N)) : N :=
  match ranges with
  | [] => c
  | (lo, hi, step, to) :: ranges =>
      if (lo <=? c) && (c <=? hi) && ((c - lo) mod step =? 0)
      then to + (c - lo)
      else lower_in c ranges
  end.

(** The simple lower-case mapping of a code point. *)
Definition simple_lower (c : N) : N := lower_in c lower_ranges.

Definition lead_surrogate (c : N) : bool := (55296 <=? c) && (c <=? 56319).
Definition trail_surrogate (c : N) : bool := (56320 <=? c) && (c <=? 57343).

(** [StringToCodePoints]: a surrogate pair is one code point, every
    other code unit, a lone surrogate too, is a code point by itself. *)
Fixpoint code_points (s : jsstring) : list N :=
  match s with
  | [] => []
  | c :: r =>
      if lead_surrogate c then
        match r with
        | d :: r' =>
            if trail_surrogate d
            then 65536 + (c - 55296) * 1024 + (d - 56320) :: code_points r'
            else c :: code_points r
        | [] => [c]
        end
      else c :: code_points r
  end.

(** [CodePointsToString]. *)
Definition utf16 (cp : N) : jsstring :=
  if cp <? 65536 then [cp]
  else [55296 + (cp - 65536) / 1024; 56320 + (cp - 65536) mod 1024].

Definition from_code_points (cps : list N) : jsstring :=
  flat_map utf16 cps.

(** Skipping the case-ignorable code points, the nearest code point is
    a cased one. *)
Fixpoint cased_next (cps : list N) : bool :=
  match cps with
  | [] => false
  | c :: r =>
      if in_ranges c case_ignorable_ranges then cased_next r
      else in_ranges c cased_ranges
  end.

(** The condition [Final_Sigma] for a sigma with the code points
    [before] it (the nearest first) and [after] it: a cased letter
    comes before and none comes after, case-ignorable code points
    aside. *)
Definition final_sigma (before after : list N) : bool :=
  cased_next before && negb (cased_next after).

(** The lower case of one code point in its context. *)
Definition lower_point (before : list N) (c : N) (after : list N)
  : list N :=
  if (c =? 931) && final_sigma before after then [962]
  else if c =? 304 then [105; 775]
  else [simple_lower c].

Fixpoint lower_points (before rest : list N) : list N :=
  match rest with
  | [] => []
  | c :: r => lower_point before c r ++ lower_points (c :: before) r
  end.

(** [s.toLowerCase()]. *)
Definition toLowerCase (s : jsstring) : jsstring :=
  from_code_points (lower_points [] (code_points s)).

(** [s.startsWith(p)]. *)
Fixpoint startsWith (s p : jsstring) {struct p} : bool :=
  match p, s with
  | [], _ => true
  | _ :: _, [] => false
  | a :: p', b :: s' => (a =? b) && startsWith s' p'
  end.

(** [s.includes(p)]: [p] occurs in [s] at some index. *)
Fixpoint includes (s p : jsstring) : bool :=
  startsWith s p ||
  match s with
  | [] => false
  | _ :: s' => includes s' p
  end.

(** Truthiness of a string: only the empty string is falsy. *)
Definition truthy_string (s : jsstring) : bool :=
  match s with [] => false | _ :: _ => true end.

(** *** Numbers *)

(** Truthiness of a number: [+0], [-0] and [NaN] are falsy. *)
Definition truthy_number (x : float) : bool :=
  negb (PrimFloat.eqb x 0 || PrimFloat.is_nan x).

Definition is_digit (c : N) : bool := (48 <=? c) && (c <=? 57).

(** The decimal digits of a natural number, most significant first. *)
Fixpoint uint_units (d : Decimal.uint) : jsstring :=
  match d with
  | Decimal.Nil => []
  | Decimal.D0 d => 48 :: uint_units d
  | Decimal.D1 d => 49 :: uint_units d
  | Decimal.D2 d => 50 :: uint_units d
  | Decimal.D3 d => 51 :: uint_units d
  | Decimal.D4 d => 52 :: uint_units d
  | Decimal.D5 d => 53 :: uint_units d
  | Decimal.D6 d => 54 :: uint_units d
  | Decimal.D7 d => 55 :: uint_units d
  | Decimal.D8 d => 56 :: uint_units d
  | Decimal.D9 d => 57 :: uint_units d
  end.

Definition decimal (n : N) : jsstring := uint_units (N.to_uint n).

(** Steps 10.b-10.c of [Number.prototype.toFixed]: the digits of [n]
    with a decimal point before the last [f] of them, padded with
    zeros on the left so that one digit stands before the point. *)
Definition fixed_point (n : N) (f : nat) : jsstring :=
  let m := decimal n in
  match f with
  | O => m
  | S _ =>
      let m := if decide (length m ≤ f)%nat
               then replicate (S f - length m) 48 ++ m else m in
      let k := length m in
      take (k - f) m ++ u "." ++ drop (k - f) m
  end.

(** Step 10.a: the integer [n] for which [n / 10^f - m * 2^e] is as
    close to zero as possible, the larger one of two. *)
Definition round_scaled (m : N) (e : Z) (f : nat) : N :=
  let a := m * 10 ^ N.of_nat f in
  if (0 <=? e)%Z then a * 2 ^ Z.to_N e
  else let d := 2 ^ Z.to_N (- e) in (2 * a + d) / (2 * d).

(** [b <= m * 2^e]. *)
Definition magnitude_ge (m : N) (e : Z) (b : N) : bool :=
  if (0 <=? e)%Z then b <=? m * 2 ^ Z.to_N e
  else b * 2 ^ Z.to_N (- e) <=? m.

(** [Number::toString] for a value [m * 2^e >= 10^21] ([e >= 0] there):
    the shortest digit string [s] of [k] digits with [s * 10^(n-k)]
    rounding to the value, the closest one of several, the even one of
    two equally close. [in_interval m e v]: the real [v] rounds (to
    nearest, ties to even) to [m * 2^e]. *)
Definition in_interval (m e v : N) : bool :=
  let x4 := 4 * m * 2 ^ e in
  let up := 2 * 2 ^ e in
  let down := if m =? 2 ^ 52 then 2 ^ e else 2 * 2 ^ e in
  if N.even m then (x4 - down <=? 4 * v) && (4 * v <=? x4 + up)
  else (x4 - down <? 4 * v) && (4 * v <? x4 + up).

Definition dist (a b : N) : N := if a <=? b then b - a else a - b.

Definition candidates (m e k : N) : list (N * N) :=
  let x := m * 2 ^ e in
  let nd := N.of_nat (length (decimal x)) in
  s_n ← [nd; nd + 1] ≫=
        (λ n, let q := 10 ^ (n - k) in [(x / q, n); (x / q + 1, n)]);
  let '(s, n) := s_n in
  if (10 ^ (k - 1) <=? s) && (s <? 10 ^ k)
     && in_interval m e (s * 10 ^ (n - k))
  then [(s, n)] else [].

Definition better (x k : N) (a b : N * N) : N * N :=
  let va := a.1 * 10 ^ (a.2 - k) in
  let vb := b.1 * 10 ^ (b.2 - k) in
  if dist vb x <? dist va x then b
  else if (dist vb x =? dist va x) && N.even b.1 then b else a.

Fixpoint shortest (m e k : N) (fuel : nat) : option (N * N * N) :=
  match fuel with
  | O => None
  | S fuel =>
      match candidates m e k with
      | [] => shortest m e (k + 1) fuel
      | c :: cs =>
          let '(s, n) := foldl (better (m * 2 ^ e) k) c cs in
          Some (s, n, k)
      end
  end.

Definition exponential (m e : N) : jsstring :=
  match shortest m e 1 17 with
  | Some (s, n, k) =>
      let ds := decimal s in
      take 1 ds ++ (if k =? 1 then [] else u "." ++ drop 1 ds)
        ++ u "e+" ++ decimal (n - 1)
  | None => []
  end.

(** [x.toFixed(f)]. *)
Definition toFixed (x : float) (f : nat) : jsstring :=
  match Prim2SF x with
  | S754_nan => u "NaN"
  | S754_infinity false => u "Infinity"
  | S754_infinity true => u "-Infinity"
  | S754_zero _ => fixed_point 0 f
  | S754_finite s m e =>
      (if s then u "-" else []) ++
      (if magnitude_ge (Npos m) e (10 ^ 21)
       then exponential (Npos m) (Z.to_N e)
       else fixed_point (round_scaled (Npos m) e f) f)
  end.

(** *** Completions *)

(** The errors the component can meet. *)
Inductive exn : Type :=
| SyntaxError
| RangeError
| AxiosError (message : jsstring).

(** What an evaluation does: it returns a value or throws. *)
Inductive outcome (A : Type) : Type :=
| Returns (a : A)
| Throws (e : exn).
Global Arguments Returns {A} a.
Global Arguments Throws {A} e.

End JS.
Export JS.

(** ** JSON text *)

Module JSON.

(** A parsed JSON value. A number keeps its literal; the members of an
    object are kept in the order of the text. *)
#[local] Set Warnings "-register-all".
Inductive value : Type :=
| JNull
| JBool (b : bool)
| JNumber (literal : jsstring)
| JString (s : jsstring)
| JArray (elements : list value)
| JObject (members : list (jsstring * value)).

(** The result of a parser on a piece of text: the value read and the
    text left, a syntax error, or recursion cut off. *)
Inductive parsed (A : Type) : Type :=
| Done (a : A) (rest : jsstring)
| Syntax
| Fuel.
Global Arguments Done {A} a rest.
Global Arguments Syntax {A}.
Global Arguments Fuel {A}.

Definition is_ws (c : N) : bool :=
  (c =? 32) || (c =? 9) || (c =? 10) || (c =? 13).

Fixpoint skip_ws (s : jsstring) : jsstring :=
  match s with
  | c :: r => if is_ws c then skip_ws r else s
  | [] => []
  end.

(** The longest prefix of digits, and what follows it. *)
Fixpoint span_digits (s : jsstring) : jsstring * jsstring :=
  match s with
  | c :: r =>
      if is_digit c then let '(ds, r') := span_digits r in (c :: ds, r')
      else ([], s)
  | [] => ([], [])
  end.

(** The value of a hexadecimal digit. *)
Definition hex_value (c : N) : option N :=
  if is_digit c then Some (c - 48)
  else if (97 <=? c) && (c <=? 102) then Some (c - 87)
  else if (65 <=? c) && (c <=? 70) then Some (c - 55)
  else None.

Definition hex4 (h1 h2 h3 h4 : N) : option N :=
  v1 ← hex_value h1; v2 ← hex_value h2;
  v3 ← hex_value h3; v4 ← hex_value h4;
  Some (((v1 * 16 + v2) * 16 + v3) * 16 + v4).

(** The code unit a single-character escape [\e] stands for. *)
Definition unescape (e : N) : option N :=
  if e =? 34 then Some 34          (* quotation mark *)
  else if e =? 92 then Some 92     (* reverse solidus *)
  else if e =? 47 then Some 47     (* solidus *)
  else if e =? 98 then Some 8      (* backspace *)
  else if e =? 102 then Some 12    (* form feed *)
  else if e =? 110 then Some 10    (* line feed *)
  else if e =? 114 then Some 13    (* carriage return *)
  else if e =? 116 then Some 9     (* tab *)
  else None.

Definition prepend (c : N) (o : option (jsstring * jsstring))
  : option (jsstring * jsstring) :=
  '(str, rest) ← o; Some (c :: str, rest).

(** The characters of a string literal after its opening quote, up to
    and including the closing quote. *)
Fixpoint parse_chars (s : jsstring) : option (jsstring * jsstring) :=
  match s with
  | [] => None
  | c :: r =>
      if c =? 34 then Some ([], r)
      else if c =? 92 then
        match r with
        | [] => None
        | e :: r1 =>
            if e =? 117 then
              match r1 with
              | h1 :: h2 :: h3 :: h4 :: r2 =>
                  match hex4 h1 h2 h3 h4 with
                  | Some cu => prepend cu (parse_chars r2)
                  | None => None
                  end
              | _ => None
              end
            else
              match unescape e with
              | Some cu => prepend cu (parse_chars r1)
              | None => None
              end
        end
      else if c <? 32 then None
      else prepend c (parse_chars r)
  end.

(** A number literal: an optional minus sign; [0], or a digit [1]-[9]
    followed by digits; optionally a point and at least one digit;
    optionally [e] or [E], an optional sign and at least one digit. *)
Definition parse_sign (s : jsstring) : jsstring * jsstring :=
  match s with
  | c :: r => if c =? 45 then ([c], r) else ([], s)
  | [] => ([], [])
  end.

Definition parse_int (s : jsstring) : option (jsstring * jsstring) :=
  match s with
  | c :: r =>
      if c =? 48 then Some ([c], r)
      else if is_digit c then
        let '(ds, r') := span_digits r in Some (c :: ds, r')
      else None
  | [] => None
  end.

Definition parse_frac (s : jsstring) : option (jsstring * jsstring) :=
  match s with
  | c :: r =>
      if c =? 46 then
        match span_digits r with
        | ([], _) => None
        | (ds, r') => Some (c :: ds, r')
        end
      else Some ([], s)
  | [] => Some ([], [])
  end.

Definition parse_exp (s : jsstring) : option (jsstring * jsstring) :=
  match s with
  | c :: r =>
      if (c =? 101) || (c =? 69) then
        let '(sg, r1) :=
          match r with
          | c' :: r' =>
              if (c' =? 43) || (c' =? 45) then ([c'], r') else ([], r)
          | [] => ([], [])
          end in
        match span_digits r1 with
        | ([], _) => None
        | (ds, r2) => Some (c :: sg ++ ds, r2)
        end
      else Some ([], s)
  | [] => Some ([], [])
  end.

Definition parse_number (s : jsstring) : option (jsstring * jsstring) :=
  let '(sg, s1) := parse_sign s in
  '(i, s2) ← parse_int s1;
  '(f, s3) ← parse_frac s2;
  '(e, s4) ← parse_exp s3;
  Some (sg ++ i ++ f ++ e, s4).

(** The literal names [true], [false] and [null]. *)
Definition parse_name (name : jsstring) (v : value) (s : jsstring)
  : parsed value :=
  if startsWith s name then Done v (drop (length name) s) else Syntax.

(** A value, the elements of an array after its first bracket or a
    comma, and the members of an object after its first brace or a
    comma. [fuel] bounds the depth of the recursion. *)
Fixpoint parse_value (fuel : nat) (s : jsstring) : parsed value :=
  match fuel with
  | O => Fuel
  | S fuel =>
      match skip_ws s with
      | [] => Syntax
      | c :: r =>
          if c =? 34 then
            match parse_chars r with
            | Some (str, r') => Done (JString str) r'
            | None => Syntax
            end
          else if c =? 91 then
            match skip_ws r with
            | c' :: r' =>
                if c' =? 93 then Done (JArray []) r'
                else
                  match parse_elements fuel (c' :: r') with
                  | Done vs r'' => Done (JArray vs) r''
                  | Syntax => Syntax
                  | Fuel => Fuel
                  end
            | [] => Syntax
            end
          else if c =? 123 then
            match skip_ws r with
            | c' :: r' =>
                if c' =? 125 then Done (JObject []) r'
                else
                  match parse_members fuel (c' :: r') with
                  | Done ms r'' => Done (JObject ms) r''
                  | Syntax => Syntax
                  | Fuel => Fuel
                  end
            | [] => Syntax
            end
          else if c =? 116 then parse_name (u "true") (JBool true) (c :: r)
          else if c =? 102 then parse_name (u "false") (JBool false) (c :: r)
          else if c =? 110 then parse_name (u "null") JNull (c :: r)
          else
            match parse_number (c :: r) with
            | Some (lit, r') => Done (JNumber lit) r'
            | None => Syntax
            end
      end
  end
with parse_elements (fuel : nat) (s : jsstring) : parsed (list value) :=
  match fuel with
  | O => Fuel
  | S fuel =>
      match parse_value fuel s with
      | Done v r =>
          match skip_ws r with
          | c :: r' =>
              if c =? 44 then
                match parse_elements fuel r' with
                | Done vs r'' => Done (v :: vs) r''
                | Syntax => Syntax
                | Fuel => Fuel
                end
              else if c =? 93 then Done [v] r'
              else Syntax
          | [] => Syntax
          end
      | Syntax => Syntax
      | Fuel => Fuel
      end
  end
with parse_members (fuel : nat) (s : jsstring)
  : parsed (list (jsstring * value)) :=
  match fuel with
  | O => Fuel
  | S fuel =>
      match skip_ws s with
      | c :: r =>
          if c =? 34 then
            match parse_chars r with
            | Some (key, r1) =>
                match skip_ws r1 with
                | c1 :: r2 =>
                    if c1 =? 58 then
                      match parse_value fuel r2 with
                      | Done v r3 =>
                          match skip_ws r3 with
                          | c3 :: r4 =>
                              if c3 =? 44 then
                                match parse_members fuel r4 with
                                | Done ms r5 => Done ((key, v) :: ms) r5
                                | Syntax => Syntax
                                | Fuel => Fuel
                                end
                              else if c3 =? 125 then Done [(key, v)] r4
                              else Syntax
                          | [] => Syntax
                          end
                      | Syntax => Syntax
                      | Fuel => Fuel
                      end
                    else Syntax
                | [] => Syntax
                end
            | None => Syntax
            end
          else Syntax
      | [] => Syntax
      end
  end.

(** A parser that, when it succeeds, has consumed at least one code
    unit. *)
Definition consumes {A} (p : jsstring → parsed A) : Prop :=
  ∀ s a r, p s = Done a r → (length r < length s)%nat.

(** [JSON.parse(text)]: one value, with nothing but white space after
    it. The recursion is given [2 * length text + 1] steps, which a
    text of that length never exhausts ([parse_terminates] below);
    running out is reported as the engine's [RangeError]. *)
Definition parse (text : jsstring) : outcome value :=
  match parse_value (2 * length text + 1) text with
  | Done v rest =>
      match skip_ws rest with
      | [] => Returns v
      | _ :: _ => Throws SyntaxError
      end
  | Syntax => Throws SyntaxError
  | Fuel => Throws RangeError
  end.

(** [JSON.stringify] of an array of strings. *)
Definition hex_digit (d : N) : N := if d <? 10 then 48 + d else 87 + d.

Definition unicode_escape (c : N) : jsstring :=
  [92; 117; hex_digit (c / 4096); hex_digit (c / 256 mod 16);
   hex_digit (c / 16 mod 16); hex_digit (c mod 16)].

Definition is_lead (c : N) : bool := (55296 <=? c) && (c <=? 56319).
Definition is_trail (c : N) : bool := (56320 <=? c) && (c <=? 57343).

(** One code unit that is not the first half of a surrogate pair. *)
Definition escape_unit (c : N) : jsstring :=
  if c =? 8 then u "\b"
  else if c =? 9 then u "\t"
  else if c =? 10 then u "\n"
  else if c =? 12 then u "\f"
  else if c =? 13 then u "\r"
  else if c =? 34 then [92; 34]
  else if c =? 92 then [92; 92]
  else if (c <? 32) || is_lead c || is_trail c then unicode_escape c
  else [c].

Fixpoint quote_units (s : jsstring) : jsstring :=
  match s with
  | [] => []
  | c :: r =>
      if is_lead c then
        match r with
        | d :: r' =>
            if is_trail d then c :: d :: quote_units r'
            else escape_unit c ++ quote_units r
        | [] => escape_unit c
        end
      else escape_unit c ++ quote_units r
  end.

(** [QuoteJSONString]. *)
Definition quote (s : jsstring) : jsstring :=
  34 :: quote_units s ++ [34].

Fixpoint join_comma (parts : list jsstring) : jsstring :=
  match parts with
  | [] => []
  | [p] => p
  | p :: ps => p ++ 44 :: join_comma ps
  end.

Definition stringify (ids : list jsstring) : jsstring :=
  91 :: join_comma (map quote ids) ++ [93].

End JSON.

(** ** The component [App] *)

Module App.

(** [interface Coin]. *)
Record Coin : Type := mkCoin {
  id : jsstring;
  symbol : jsstring;
  name : jsstring;
  current_price : float;
  price_change_percentage_24h : float;
  price_change_percentage_1h_in_currency : option float;
  price_change_percentage_7d_in_currency : option float;
  price_change_percentage_30d_in_currency : option float;
  market_cap : float;
  market_cap_rank : float;
  market_cap_change_percentage_24h : option float;
  total_volume : float;
  high_24h : float;
  low_24h : float;
  circulating_supply : float;
  total_supply : float;
  max_supply : option float;
  ath : float;
  ath_date : jsstring;
  atl : float;
  atl_date : jsstring;
  image : jsstring;
  description : option jsstring
}.

(** The state of [App] ([useState]), the browser's [localStorage] and
    the calls of [console.error]. *)
Record State : Type := mkState {
  coins : list Coin;
  loading : bool;
  searchTerm : jsstring;
  favorites : list jsstring;
  localStorage : gmap jsstring jsstring;
  console : list (jsstring * exn)
}.

(** *** Effects: state and exceptions *)

Definition Eff (S A : Type) : Type := S → outcome A * S.

Global Instance eff_ret {S} : MRet (Eff S) := λ A a s, (Returns a, s).

Global Instance eff_bind {S} : MBind (Eff S) := λ A B k m s,
  match m s with
  | (Returns a, s') => k a s'
  | (Throws e, s') => (Throws e, s')
  end.

(** [await p] for a promise settled with [p]. *)
Definition await {S A} (p : outcome A) : Eff S A := λ s, (p, s).

(** [try { body } catch (error) { handler error }]. *)
Definition try_catch {S A} (body : Eff S A) (handler : exn → Eff S A)
  : Eff S A := λ s,
  match body s with
  | (Returns a, s') => (Returns a, s')
  | (Throws e, s') => handler e s'
  end.

(** [try { body } finally { fin }]. *)
Definition finally {S A} (body : Eff S A) (fin : Eff S unit)
  : Eff S A := λ s,
  let '(r, s') := body s in
  match fin s' with
  | (Returns _, s'') => (r, s'')
  | (Throws e, s'') => (Throws e, s'')
  end.

Definition setCoins (data : list Coin) : Eff State unit := λ st,
  (Returns (), mkState data (loading st) (searchTerm st) (favorites st)
                 (localStorage st) (console st)).

Definition setLoading (b : bool) : Eff State unit := λ st,
  (Returns (), mkState (coins st) b (searchTerm st) (favorites st)
                 (localStorage st) (console st)).

Definition setSearchTerm (s : jsstring) : Eff State unit := λ st,
  (Returns (), mkState (coins st) (loading st) s (favorites st)
                 (localStorage st) (console st)).

Definition setFavorites (f : list jsstring → list jsstring)
  : Eff State unit := λ st,
  (Returns (), mkState (coins st) (loading st) (searchTerm st)
                 (f (favorites st)) (localStorage st) (console st)).

Definition console_error (msg : jsstring) (e : exn) : Eff State unit :=
  λ st,
  (Returns (), mkState (coins st) (loading st) (searchTerm st)
                 (favorites st) (localStorage st)
                 (console st ++ [(msg, e)])).

Definition localStorage_setItem (key text : jsstring) : Eff State unit :=
  λ st,
  (Returns (), mkState (coins st) (loading st) (searchTerm st)
                 (favorites st) (<[key := text]> (localStorage st))
                 (console st)).

(** *** The favorites store *)

(** The initializer of the [favorites] state:
    [const saved = localStorage.getItem('favorites');
     return saved ? JSON.parse(saved) : []]. *)
Definition load (storage : gmap jsstring jsstring) : outcome JSON.value :=
  let saved := storage !! u "favorites" in
  match saved with
  | Some text =>
      if truthy_string text then JSON.parse text
      else Returns (JSON.JArray [])
  | None => Returns (JSON.JArray [])
  end.

(** [toggleFavorite], the updater it passes to [setFavorites]:
    [prev.includes(coinId) ? prev.filter(id => id !== coinId)
                           : [...prev, coinId]]. *)
Definition toggleFavorite (coinId : jsstring) (prev : list jsstring)
  : list jsstring :=
  if bool_decide (coinId ∈ prev)
  then filter (λ id, id ≠ coinId) prev
  else prev ++ [coinId].

(** The effect with dependency [favorites]:
    [localStorage.setItem('favorites', JSON.stringify(favorites))]. *)
Definition persist : Eff State unit := λ st,
  localStorage_setItem (u "favorites") (JSON.stringify (favorites st)) st.

(** *** The list poll *)

(** [fetchCoins], for the way the request of [axios.get] settles:
    with the data of the response or with an error. *)
Definition fetchCoins (get : outcome (list Coin)) : Eff State unit :=
  finally
    (try_catch
       (data ← await get; setCoins data)
       (λ error, console_error (u "Error fetching coins:") error))
    (setLoading false).

(** *** The filter view *)

Definition matches (searchTerm : jsstring) (coin : Coin) : bool :=
  includes (toLowerCase (name coin)) (toLowerCase searchTerm)
  || includes (toLowerCase (symbol coin)) (toLowerCase searchTerm).

Definition filteredCoins (coins : list Coin) (searchTerm : jsstring)
  : list Coin :=
  List.filter (matches searchTerm) coins.

(** *** Events *)

(** What happens to a mounted [App]: a click on the star of a card, a
    change of the search input, a request of the poll settling. After
    the update React renders again and runs the effects whose
    dependencies changed: [persist] after [setFavorites] (the updater
    always builds a new array), none after the other two. *)
Inductive event : Type :=
| Click_star (coinId : jsstring)
| Change_search (value : jsstring)
| Poll_settled (get : outcome (list Coin)).

Definition handle (ev : event) : Eff State unit :=
  match ev with
  | Click_star coinId => setFavorites (toggleFavorite coinId);; persist
  | Change_search value => setSearchTerm value
  | Poll_settled get => fetchCoins get
  end.

(** The state after an event (what the handler threw, if anything,
    is not kept). *)
Definition step (st : State) (ev : event) : State := (handle ev st).2.

(** The first render of [App] with the loaded favorites, after its
    effects ran: [persist] has written the favorites back; the first
    request of the poll is on its way. *)
Definition mounted (favs : list jsstring)
    (storage : gmap jsstring jsstring) : State :=
  (persist (mkState [] true [] favs storage [])).2.

Definition run (st : State) (evs : list event) : State :=
  foldl step st evs.

(** *** [CoinCard] *)

Inductive icon : Type := ArrowTrendingUpIcon | ArrowTrendingDownIcon.

(** The icon before the 24h change:
    [coin.price_change_percentage_24h > 0 ? up : down]. *)
Definition trend_24h (coin : Coin) : icon :=
  if PrimFloat.ltb 0 (price_change_percentage_24h coin)
  then ArrowTrendingUpIcon else ArrowTrendingDownIcon.

(** The colour class of the 24h change. *)
Definition trend_24h_class (coin : Coin) : jsstring :=
  if PrimFloat.ltb 0 (price_change_percentage_24h coin)
  then u "text-green-500" else u "text-red-500".

(** The string literal of the source for an absent maximum supply: the
    three code units U+00E2, U+02C6, U+017E. *)
Definition no_max_supply : jsstring := [226; 710; 382].

(** [coin.max_supply ? (coin.max_supply / 1000000).toFixed(2) + 'M'
                     : <literal>]. *)
Definition max_supply_text (coin : Coin) : jsstring :=
  match max_supply coin with
  | Some x =>
      if truthy_number x then toFixed (x / 1000000)%float 2 ++ u "M"
      else no_max_supply
  | None => no_max_supply
  end.

(** The text of the supply paragraph of a card. *)
Definition supply_text (coin : Coin) : jsstring :=
  u "Supply: " ++ toFixed (circulating_supply coin / 1000000)%float 2
    ++ u "M / " ++ max_supply_text coin.

End App.

(** ** The component [CoinDetail] *)

Module CoinDetail.

Import App.

(** The state of a mounted [CoinDetail] and its calls of
    [console.error]. *)
Record State : Type := mkState {
  coin : option Coin;
  loading : bool;
  console : list (jsstring * exn)
}.

(** [useState<Coin | null>(null)], [useState(true)]. *)
Definition initial : State := mkState None true [].

Definition setCoin (c : option Coin) : Eff State unit := λ st,
  (Returns (), mkState c (loading st) (console st)).

Definition setLoading (b : bool) : Eff State unit := λ st,
  (Returns (), mkState (coin st) b (console st)).

Definition console_error (msg : jsstring) (e : exn) : Eff State unit :=
  λ st, (Returns (), mkState (coin st) (loading st)
                       (console st ++ [(msg, e)])).

(** The address of the detail request, the template literal
    [https://api.coingecko.com/api/v3/coins/${coinId}]. *)
Definition detail_url (coinId : jsstring) : jsstring :=
  u "https://api.coingecko.com/api/v3/coins/" ++ coinId.

(** [fetchCoinDetail] for the prop [coinId]. [axios_get] tells how the
    request to an address settles: with the data of the response (a
    record, or none) or with an error. *)
Definition fetchCoinDetail (axios_get : jsstring → outcome (option Coin))
    (coinId : jsstring) : Eff State unit :=
  finally
    (try_catch
       (data ← await (axios_get (detail_url coinId)); setCoin data)
       (λ error, console_error (u "Error fetching coin details:") error))
    (setLoading false).

(** What the component renders. *)
Inductive view : Type :=
| Loading
| Coin_not_found
| Details (c : Coin).

Definition render (st : State) : view :=
  if loading st then Loading
  else match coin st with
       | None => Coin_not_found
       | Some c => Details c
       end.

End CoinDetail.

(** ** Notions of the specification, and sample data *)

Module Spec.

Import App.

(** [t] contains [s] as a case-insensitive substring: a stretch of [t]
    equals [s] when the case of letters is ignored. *)
Definition contains_ci (t s : jsstring) : Prop :=
  ∃ pre mid post, t = pre ++ mid ++ post ∧ toLowerCase mid = toLowerCase s.

(** The display name or the symbol of the coin contains [s]. *)
Definition selected (s : jsstring) (coin : Coin) : Prop :=
  contains_ci (name coin) s ∨ contains_ci (symbol coin) s.

(** [p] occurs in [t]: [t] holds the code units of [p] in a row. *)
Definition occurs_in (t p : jsstring) : Prop :=
  ∃ pre post, t = pre ++ p ++ post.

(** The lower-cased search string occurs in the lower-cased display
    name or in the lower-cased symbol of the coin. *)
Definition selected_lower (s : jsstring) (coin : Coin) : Prop :=
  occurs_in (toLowerCase (name coin)) (toLowerCase s)
  ∨ occurs_in (toLowerCase (symbol coin)) (toLowerCase s).

(** A string of ASCII characters, and a coin whose display name and
    symbol are such strings. *)
Definition ascii (s : jsstring) : Prop := Forall (λ c, c < 128) s.

Definition ascii_coin (coin : Coin) : Prop :=
  ascii (name coin) ∧ ascii (symbol coin).

(** Lower case on the ASCII range: the letters [A]..[Z] become [a]..[z],
    every other character is left as it is. *)
Definition ascii_lower (c : N) : N :=
  if (65 <=? c) && (c <=? 90) then c + 32 else c.

(** [l'] is the sublist of the elements of [l] that satisfy [P], in
    the order of [l]. *)
Inductive sublist_of {A : Type} (P : A → Prop) : list A → list A → Prop :=
| sublist_nil : sublist_of P [] []
| sublist_keep x l l' :
    P x → sublist_of P l l' → sublist_of P (x :: l) (x :: l')
| sublist_drop x l l' :
    ¬ P x → sublist_of P l l' → sublist_of P (x :: l) l'.

(** The number is strictly greater than zero: a positive finite
    number or positive infinity. *)
Definition greater_than_zero (x : float) : Prop :=
  match Prim2SF x with
  | S754_infinity false | S754_finite false _ _ => True
  | _ => False
  end.

(** The number is zero, of either sign. *)
Definition is_zero (x : float) : Prop :=
  match Prim2SF x with S754_zero _ => True | _ => False end.

(** A decimal numeral with two fraction digits: an optional minus
    sign, at least one digit, a point and two digits. *)
Definition numeral_2 (s : jsstring) : Prop :=
  ∃ sign int d1 d2,
    s = sign ++ int ++ [46; d1; d2]
    ∧ (sign = [] ∨ sign = [45])
    ∧ int ≠ []
    ∧ Forall (λ c, is_digit c = true) (int ++ [d1; d2]).

(** The number is finite and of magnitude below [10^21], the range in
    which [toFixed] writes fixed-point notation. *)
Definition below_1e21 (x : float) : Prop :=
  match Prim2SF x with
  | S754_zero _ => True
  | S754_finite _ m e => magnitude_ge (Npos m) e (10 ^ 21) = false
  | _ => False
  end.

(** Sample records. *)
Definition sample (i : jsstring) (change : float) (max : option float)
  : Coin :=
  mkCoin i (u "btc") (u "Bitcoin") 97000 change None None None
    1900000000000 1 None 35000000000 98000 96000 19800000 21000000 max
    108000 (u "2025-01-20T09:11:54.494Z") 67.5
    (u "2013-07-06T00:00:00.000Z") (u "https://example.org/btc.png") None.

(** A record with a given symbol and display name. *)
Definition named (sy n : jsstring) : Coin :=
  mkCoin n sy n 1 0.5 None None None 1000000 1 None 1000000 1 1 1000000
    1000000 None 1 (u "2025-01-20T09:11:54.494Z") 1
    (u "2013-07-06T00:00:00.000Z") (u "https://example.org/coin.png") None.

(** The data of the last request of a run of polls that succeeded, and
    [before] when none did. *)
Fixpoint last_response (before : list Coin)
    (gets : list (outcome (list Coin))) : list Coin :=
  match gets with
  | [] => before
  | Returns data :: gets => last_response data gets
  | Throws _ :: gets => last_response before gets
  end.

(** The stored entry is the serialization of the favorites in memory. *)
Definition in_sync (st : State) : Prop :=
  localStorage st !! u "favorites" = Some (JSON.stringify (favorites st)).

End Spec.
Export Spec.

(** ** More of [App]: the card, the root page, the detail route *)

Module View.

Import App.

(** [x > 0] for an optional number: [undefined > 0] is [false]. *)
Definition gt_zero (x : option float) : bool :=
  match x with
  | Some x => PrimFloat.ltb 0 x
  | None => false
  end.

(** The icon before the 1h change:
    [coin.price_change_percentage_1h_in_currency > 0 ? up : down]. *)
Definition trend_1h (coin : Coin) : icon :=
  if gt_zero (price_change_percentage_1h_in_currency coin)
  then ArrowTrendingUpIcon else ArrowTrendingDownIcon.

(** The colour class of the 1h change. *)
Definition trend_1h_class (coin : Coin) : jsstring :=
  if gt_zero (price_change_percentage_1h_in_currency coin)
  then u "text-green-500" else u "text-red-500".

(** [{x?.toFixed(2)}] as a JSX child: nothing for [undefined]. *)
Definition toFixed_child (x : option float) : jsstring :=
  match x with
  | Some x => toFixed x 2
  | None => []
  end.

(** The texts of the two change spans of a card. *)
Definition change_1h_text (coin : Coin) : jsstring :=
  u "1h: " ++ toFixed_child (price_change_percentage_1h_in_currency coin)
    ++ u "%".

Definition change_24h_text (coin : Coin) : jsstring :=
  u "24h: " ++ toFixed (price_change_percentage_24h coin) 2 ++ u "%".

(** The class the star of a card gets besides its size:
    [favorites.includes(coin.id) ? 'fill-current'
                                 : 'stroke-current fill-none']. *)
Definition star_class (favorites : list jsstring) (coin : Coin) : jsstring :=
  if bool_decide (id coin ∈ favorites)
  then u "fill-current" else u "stroke-current fill-none".

(** [s.split(sep)] for a separator of one code unit: the stretches of
    [s] between the occurrences of [sep], at least one. *)
Fixpoint split (sep : N) (s : jsstring) : list jsstring :=
  match s with
  | [] => [[]]
  | c :: r =>
      if c =? sep then [] :: split sep r
      else match split sep r with
           | seg :: segs => (c :: seg) :: segs
           | [] => [[c]]
           end
  end.

(** The prop of the detail route:
    [window.location.pathname.split('/').pop() || '']. *)
Definition coinId_of_pathname (pathname : jsstring) : jsstring :=
  match last (split 47 pathname) with
  | Some segment => if truthy_string segment then segment else []
  | None => []
  end.

(** What [App] returns at the root path: the loading screen while
    [loading] holds, and the grid of the cards of [filteredCoins]
    afterwards. *)
Inductive screen : Type :=
| Loading_screen
| Card_grid (cards : list Coin).

Definition render_list (st : State) : screen :=
  if loading st then Loading_screen
  else Card_grid (filteredCoins (coins st) (searchTerm st)).

End View.
Export View.

(** ** Readings of a run of events *)

Module Trace.

Import App.

(** How often the star of [coinId] was clicked. *)
Fixpoint clicks (coinId : jsstring) (evs : list event) : nat :=
  match evs with
  | [] => 0
  | Click_star i :: evs =>
      (if bool_decide (i = coinId) then 1 else 0) + clicks coinId evs
  | _ :: evs => clicks coinId evs
  end.

(** The identifiers whose star was clicked. *)
Fixpoint clicked (evs : list event) : list jsstring :=
  match evs with
  | [] => []
  | Click_star i :: evs => i :: clicked evs
  | _ :: evs => clicked evs
  end.

(** The requests of the poll that settled, in order. *)
Fixpoint settled (evs : list event) : list (outcome (list Coin)) :=
  match evs with
  | [] => []
  | Poll_settled get :: evs => get :: settled evs
  | _ :: evs => settled evs
  end.

(** The errors of the requests that were rejected, in order. *)
Fixpoint rejections (gets : list (outcome (list Coin))) : list exn :=
  match gets with
  | [] => []
  | Throws e :: gets => e :: rejections gets
  | Returns _ :: gets => rejections gets
  end.

(** The last value given to the search input, and [before] when none
    was. *)
Fixpoint last_search (before : jsstring) (evs : list event) : jsstring :=
  match evs with
  | [] => before
  | Change_search value :: evs => last_search value evs
  | _ :: evs => last_search before evs
  end.

End Trace.
Export Trace.

(** * Properties *)

Import App.

(** ** Strings *)

Section StringFacts.

Implicit Types (s t p : jsstring).

Lemma startsWith_correct s p :
  startsWith s p = true ↔ ∃ post, s = p ++ post.
Proof.
  revert s. induction p as [|a p IH]; intros s; simpl.
  - split; [intros _; by exists s | done].
  - destruct s as [|b s].
    + split; [done | intros [post H]; discriminate H].
    + rewrite andb_true_iff, N.eqb_eq, IH. split.
      * intros [-> [post ->]]. by exists post.
      * intros [post H]. injection H as -> ->. split; [done | by exists post].
Qed.

Lemma includes_correct s p :
  includes s p = true ↔ ∃ pre post, s = pre ++ p ++ post.
Proof.
  induction s as [|b s IH]; simpl.
  - rewrite orb_false_r, startsWith_correct. split.
    + intros [post H]. by exists [], post.
    + intros [pre [post H]]. destruct pre; [by exists post | discriminate H].
  - rewrite orb_true_iff, startsWith_correct, IH. split.
    + intros [[post H] | [pre [post H]]].
      * by exists [], post.
      * exists (b :: pre), post. by rewrite H.
    + intros [pre [post H]]. destruct pre as [|c pre].
      * left. by exists post.
      * right. injection H as -> ->. by exists pre, post.
Qed.

Lemma includes_empty s : includes s [] = true.
Proof. apply includes_correct. by exists [], s. Qed.

(** *** Lower case of ASCII strings *)

Lemma simple_lower_ascii (c : N) : c < 128 → simple_lower c = ascii_lower c.
Proof.
  intros Hc.
  assert (H : forallb (λ n, simple_lower (N.of_nat n) =? ascii_lower (N.of_nat n))
                (seq 0 128) = true) by (by vm_compute).
  rewrite forallb_forall in H.
  specialize (H (N.to_nat c)). rewrite N2Nat.id in H.
  apply N.eqb_eq, H, in_seq. lia.
Qed.

Lemma ascii_lower_ascii (c : N) : c < 128 → ascii_lower c < 128.
Proof.
  unfold ascii_lower. intros Hc.
  destruct ((65 <=? c) && (c <=? 90)) eqn:E; [|done].
  apply andb_true_iff in E as [_ E]. apply N.leb_le in E. lia.
Qed.

Lemma code_points_ascii s : ascii s → code_points s = s.
Proof.
  induction 1 as [|c s Hc _ IH]; [done|]. simpl.
  assert (lead_surrogate c = false) as ->.
  { unfold lead_surrogate. apply andb_false_iff. left. apply N.leb_gt. lia. }
  by rewrite IH.
Qed.

Lemma lower_point_ascii before c after :
  c < 128 → lower_point before c after = [ascii_lower c].
Proof.
  intros Hc. unfold lower_point.
  assert ((c =? 931) = false) as -> by (apply N.eqb_neq; lia).
  assert ((c =? 304) = false) as -> by (apply N.eqb_neq; lia).
  simpl. by rewrite simple_lower_ascii.
Qed.

Lemma lower_points_ascii before s :
  ascii s → lower_points before s = map ascii_lower s.
Proof.
  intros Hs. revert before.
  induction Hs as [|c s Hc _ IH]; intros before; [done|]. simpl.
  by rewrite lower_point_ascii, IH.
Qed.

Lemma from_code_points_ascii s : ascii s → from_code_points s = s.
Proof.
  induction 1 as [|c s Hc _ IH]; [done|].
  unfold from_code_points in *. simpl. rewrite IH. unfold utf16.
  assert ((c <? 65536) = true) as -> by (apply N.ltb_lt; lia). done.
Qed.

Lemma map_ascii_lower_ascii s : ascii s → ascii (map ascii_lower s).
Proof.
  induction 1 as [|c s Hc _ IH]; [constructor|].
  constructor; [by apply ascii_lower_ascii | done].
Qed.

(** On ASCII strings [toLowerCase] maps every letter by itself. *)
Lemma toLowerCase_ascii s : ascii s → toLowerCase s = map ascii_lower s.
Proof.
  intros Hs. unfold toLowerCase.
  rewrite code_points_ascii, lower_points_ascii by done.
  by apply from_code_points_ascii, map_ascii_lower_ascii.
Qed.

Lemma toLowerCase_ascii_length s :
  ascii s → length (toLowerCase s) = length s.
Proof. intros Hs. rewrite toLowerCase_ascii by done. apply length_map. Qed.

Lemma toLowerCase_empty : toLowerCase [] = [].
Proof. reflexivity. Qed.

Lemma ascii_app s t : ascii (s ++ t) ↔ ascii s ∧ ascii t.
Proof. apply Forall_app. Qed.

(** Lower-casing beyond ASCII: a Latin letter with an accent, the
    capital I with a dot above, which becomes two code units, and the
    sigma, which becomes the final sigma at the end of a word only. *)
Example toLowerCase_samples :
  toLowerCase [67; 65; 70; 201] = [99; 97; 102; 233]
  ∧ toLowerCase [304] = [105; 775]
  ∧ toLowerCase [913; 931] = [945; 962]
  ∧ toLowerCase [913; 931; 913] = [945; 963; 945].
Proof. by vm_compute. Qed.

(** On ASCII strings the test of the code and the words of the
    specification agree. *)
Lemma includes_lower_correct t s :
  ascii t → ascii s →
  includes (toLowerCase t) (toLowerCase s) = true ↔ contains_ci t s.
Proof.
  intros Ht Hs. rewrite includes_correct. unfold contains_ci.
  rewrite (toLowerCase_ascii t Ht), (toLowerCase_ascii s Hs). split.
  - intros [pre' [post' H]].
    apply map_eq_app in H as (pre & rest & -> & <- & H).
    apply map_eq_app in H as (mid & post & -> & Hmid & <-).
    exists pre, mid, post. split; [done|].
    apply ascii_app in Ht as [_ Ht]. apply ascii_app in Ht as [Ht _].
    by rewrite (toLowerCase_ascii mid Ht).
  - intros (pre & mid & post & -> & H).
    apply ascii_app in Ht as [_ Ht]. apply ascii_app in Ht as [Ht _].
    rewrite (toLowerCase_ascii mid Ht) in H.
    exists (map ascii_lower pre), (map ascii_lower post).
    by rewrite !map_app, H.
Qed.

End StringFacts.

(** ** The filter view *)

Section FilterFacts.

Lemma matches_selected_lower s coin :
  matches s coin = true ↔ selected_lower s coin.
Proof.
  unfold matches, selected_lower, occurs_in.
  by rewrite orb_true_iff, !includes_correct.
Qed.

Lemma matches_correct s coin :
  ascii s → ascii_coin coin → matches s coin = true ↔ selected s coin.
Proof.
  intros Hs [Hn Hsy]. unfold matches, selected.
  by rewrite orb_true_iff, !includes_lower_correct.
Qed.

Lemma sublist_of_filter {A} (P : A → Prop) (f : A → bool) (l : list A) :
  Forall (λ x, f x = true ↔ P x) l → sublist_of P l (List.filter f l).
Proof.
  induction 1 as [|x l Hx _ IH]; simpl.
  - constructor.
  - destruct (f x) eqn:E.
    + constructor; [by apply Hx | done].
    + constructor; [| done]. rewrite <- Hx. discriminate.
Qed.

Lemma sublist_of_unique {A} (P : A → Prop) (l l1 l2 : list A) :
  sublist_of P l l1 → sublist_of P l l2 → l1 = l2.
Proof.
  intros H1. revert l2.
  induction H1 as [|x l l1 Hx _ IH|x l l1 Hx _ IH]; intros l2 H2;
    inversion H2; subst; try done.
  - f_equal. by apply IH.
  - by apply IH.
Qed.

Lemma filter_all {A} (f : A → bool) (l : list A) :
  (∀ x, f x = true) → List.filter f l = l.
Proof.
  intros Hf. induction l as [|x l IH]; simpl; [done|].
  by rewrite Hf, IH.
Qed.

End FilterFacts.

(** C2, as amended: for every coin list and every search string [s],
    the filtered list is exactly the sublist of the coins for which the
    lower-cased search string occurs in the lower-cased display name or
    in the lower-cased symbol, in the original order (it is such a
    sublist, and every such sublist equals it); for the empty search
    string it is the full coin list; and when the search string and the
    display names and symbols of the coins are ASCII strings, it is
    exactly the sublist of the coins whose display name or symbol
    contains [s] as a case-insensitive substring. *)
Theorem filteredCoins_spec (coins : list Coin) (s : jsstring) :
  sublist_of (selected_lower s) coins (filteredCoins coins s)
  ∧ (∀ l, sublist_of (selected_lower s) coins l → l = filteredCoins coins s)
  ∧ filteredCoins coins [] = coins
  ∧ (ascii s → Forall ascii_coin coins →
     sublist_of (selected s) coins (filteredCoins coins s)
     ∧ (∀ l, sublist_of (selected s) coins l → l = filteredCoins coins s)).
Proof.
  assert (H : sublist_of (selected_lower s) coins (filteredCoins coins s)).
  { apply sublist_of_filter, Forall_forall.
    intros c _. apply matches_selected_lower. }
  split; [done|]. split; [|split].
  - intros l Hl. exact (sublist_of_unique _ _ _ _ Hl H).
  - apply filter_all. intros c. unfold matches.
    rewrite toLowerCase_empty. by rewrite includes_empty.
  - intros Hs Hcoins.
    assert (H' : sublist_of (selected s) coins (filteredCoins coins s)).
    { apply sublist_of_filter. eapply Forall_impl; [exact Hcoins|].
      intros c Hc. by apply matches_correct. }
    split; [done|].
    intros l Hl. exact (sublist_of_unique _ _ _ _ Hl H').
Qed.

(** A search in capitals finds a name in mixed case, with and
    without letters beyond ASCII, and a search string that occurs
    nowhere finds nothing. *)
Example filteredCoins_samples :
  filteredCoins [named (u "btc") (u "Bitcoin"); named (u "eth") (u "Ethereum")]
    (u "BIT")
  = [named (u "btc") (u "Bitcoin")]
  ∧ filteredCoins [named (u "cafe") [67; 97; 102; 233]] [67; 65; 70; 201]
    = [named (u "cafe") [67; 97; 102; 233]]
  ∧ filteredCoins [named (u "btc") (u "Bitcoin")] (u "doge") = [].
Proof. by vm_compute. Qed.

(** C2, as stated, fails: the display name made of the Greek capital
    letters alpha, sigma, alpha holds the search string alpha, sigma as
    it stands, and the coin is filtered out, because the sigma at the
    end of the search string is lower-cased to the final sigma and the
    one inside the name is not. *)
Lemma filteredCoins_final_sigma :
  name (named (u "asa") [913; 931; 913]) = [] ++ [913; 931] ++ [913]
  ∧ selected [913; 931] (named (u "asa") [913; 931; 913])
  ∧ filteredCoins [named (u "asa") [913; 931; 913]] [913; 931] = []
  ∧ ¬ sublist_of (selected [913; 931]) [named (u "asa") [913; 931; 913]]
        (filteredCoins [named (u "asa") [913; 931; 913]] [913; 931]).
Proof.
  assert (Hsel : selected [913; 931] (named (u "asa") [913; 931; 913])).
  { left. by exists [], [913; 931], [913]. }
  assert (Hf : filteredCoins [named (u "asa") [913; 931; 913]] [913; 931]
               = []) by (by vm_compute).
  split; [done|]. split; [done|]. split; [done|].
  rewrite Hf. intros H. inversion H; subst. done.
Qed.

(** ** The favorites store: [toggleFavorite] *)

Section ToggleFacts.

Implicit Types (l : list jsstring) (coinId x : jsstring).

Lemma toggle_present l coinId :
  coinId ∈ l → toggleFavorite coinId l = filter (λ x, x ≠ coinId) l.
Proof.
  intros H. unfold toggleFavorite. by rewrite bool_decide_eq_true_2.
Qed.

Lemma toggle_absent l coinId :
  coinId ∉ l → toggleFavorite coinId l = l ++ [coinId].
Proof.
  intros H. unfold toggleFavorite. by rewrite bool_decide_eq_false_2.
Qed.

Lemma filter_absent l coinId :
  coinId ∉ l → filter (λ x, x ≠ coinId) l = l.
Proof.
  intros H. induction l as [|y l IH]; [done|].
  apply not_elem_of_cons in H as [Hy Hl].
  rewrite filter_cons_True by done. by rewrite IH.
Qed.

Lemma toggle_flips l coinId :
  coinId ∈ toggleFavorite coinId l ↔ coinId ∉ l.
Proof.
  destruct (decide (coinId ∈ l)) as [Hin|Hout].
  - rewrite toggle_present by done. rewrite list_elem_of_filter. tauto.
  - rewrite toggle_absent by done. rewrite elem_of_app, list_elem_of_singleton.
    tauto.
Qed.

Lemma toggle_others l coinId x :
  x ≠ coinId → x ∈ toggleFavorite coinId l ↔ x ∈ l.
Proof.
  intros Hx. destruct (decide (coinId ∈ l)) as [Hin|Hout].
  - rewrite toggle_present by done. rewrite list_elem_of_filter. tauto.
  - rewrite toggle_absent by done. rewrite elem_of_app, list_elem_of_singleton.
    tauto.
Qed.

Lemma toggle_twice_absent l coinId :
  coinId ∉ l → toggleFavorite coinId (toggleFavorite coinId l) = l.
Proof.
  intros H. rewrite (toggle_absent l) by done.
  rewrite toggle_present by (rewrite elem_of_app, list_elem_of_singleton; tauto).
  rewrite filter_app, filter_absent by done.
  rewrite filter_cons_False by (intros Hne; by apply Hne).
  by rewrite filter_nil, app_nil_r.
Qed.

Lemma toggle_twice_present l coinId :
  coinId ∈ l →
  toggleFavorite coinId (toggleFavorite coinId l)
  = filter (λ x, x ≠ coinId) l ++ [coinId].
Proof.
  intros H. rewrite (toggle_present l) by done.
  apply toggle_absent. rewrite list_elem_of_filter. tauto.
Qed.

Lemma toggle_twice_members l coinId x :
  x ∈ toggleFavorite coinId (toggleFavorite coinId l) ↔ x ∈ l.
Proof.
  destruct (decide (x = coinId)) as [->|Hx].
  - rewrite toggle_flips, toggle_flips.
    destruct (decide (coinId ∈ l)); tauto.
  - by rewrite !toggle_others.
Qed.

Lemma toggle_keeps_others l coinId :
  filter (λ x, x ≠ coinId) (toggleFavorite coinId l)
  = filter (λ x, x ≠ coinId) l.
Proof.
  destruct (decide (coinId ∈ l)) as [Hin|Hout].
  - rewrite toggle_present by done.
    apply filter_absent. rewrite list_elem_of_filter. tauto.
  - rewrite toggle_absent by done. rewrite filter_app.
    rewrite (filter_cons_False _ coinId) by (intros Hne; by apply Hne).
    by rewrite filter_nil, app_nil_r.
Qed.

Lemma toggle_NoDup l coinId :
  NoDup l → NoDup (toggleFavorite coinId l).
Proof.
  intros Hl. destruct (decide (coinId ∈ l)) as [Hin|Hout].
  - rewrite toggle_present by done. by apply NoDup_filter.
  - rewrite toggle_absent by done. apply NoDup_app. split; [done|]. split.
    + intros x Hx Hx'. apply list_elem_of_singleton in Hx' as ->. done.
    + apply NoDup_singleton.
Qed.

End ToggleFacts.

(** C3: for every favorites list and every identifier, [toggleFavorite]
    removes the identifier when it is present and appends it when it is
    absent, so one call flips the membership of that identifier and of
    no other; two calls in succession return the favorites set to its
    original state: the list has the members of the original one (it is
    the original list when the identifier was absent from it, and the
    original list with the identifier moved to the end when it was
    present). *)
Theorem toggleFavorite_flip (l : list jsstring) (coinId : jsstring) :
  (coinId ∈ toggleFavorite coinId l ↔ coinId ∉ l)
  ∧ (∀ x, x ≠ coinId → (x ∈ toggleFavorite coinId l ↔ x ∈ l))
  ∧ (∀ x, x ∈ toggleFavorite coinId (toggleFavorite coinId l) ↔ x ∈ l)
  ∧ (coinId ∉ l → toggleFavorite coinId (toggleFavorite coinId l) = l)
  ∧ (coinId ∈ l →
     toggleFavorite coinId (toggleFavorite coinId l)
     = filter (λ x, x ≠ coinId) l ++ [coinId]).
Proof.
  split; [apply toggle_flips|].
  split; [intros x; apply toggle_others|].
  split; [intros x; apply toggle_twice_members|].
  split; [apply toggle_twice_absent | apply toggle_twice_present].
Qed.

(** The order of the list is not part of the favorites set: toggling
    [bitcoin] twice in the favorites [bitcoin; ethereum] gives
    [ethereum; bitcoin], the same set in another order. *)
Example toggleFavorite_twice_reorders :
  toggleFavorite (u "bitcoin")
    (toggleFavorite (u "bitcoin") [u "bitcoin"; u "ethereum"])
  = [u "ethereum"; u "bitcoin"].
Proof. by vm_compute. Qed.

(** C10: for every favorites list without duplicates and every
    identifier, the list [toggleFavorite] produces has no duplicates
    either, and the identifiers other than the toggled one keep their
    relative order: a removal filters the list in place, an addition
    appends the identifier at the end. *)
Theorem toggleFavorite_NoDup_order (l : list jsstring) (coinId : jsstring) :
  NoDup l →
  NoDup (toggleFavorite coinId l)
  ∧ filter (λ x, x ≠ coinId) (toggleFavorite coinId l)
    = filter (λ x, x ≠ coinId) l
  ∧ (coinId ∈ l → toggleFavorite coinId l = filter (λ x, x ≠ coinId) l)
  ∧ (coinId ∉ l → toggleFavorite coinId l = l ++ [coinId]).
Proof.
  intros Hl. split; [by apply toggle_NoDup|].
  split; [apply toggle_keeps_others|].
  split; [apply toggle_present | apply toggle_absent].
Qed.

Lemma toggleFavorite_NoDup_order_witness :
  NoDup [u "bitcoin"; u "ethereum"]
  ∧ NoDup (toggleFavorite (u "ethereum") [u "bitcoin"; u "ethereum"])
  ∧ filter (λ x, x ≠ u "ethereum")
      (toggleFavorite (u "ethereum") [u "bitcoin"; u "ethereum"])
    = filter (λ x, x ≠ u "ethereum") [u "bitcoin"; u "ethereum"].
Proof.
  assert (H : NoDup [u "bitcoin"; u "ethereum"]).
  { refine (bool_decide_unpack _ _). vm_compute. exact I. }
  split; [exact H|].
  pose proof (toggleFavorite_NoDup_order [u "bitcoin"; u "ethereum"]
                (u "ethereum") H) as (H1 & H2 & _).
  split; [exact H1 | exact H2].
Defined.

(** ** The list poll: [fetchCoins] *)

Section PollFacts.

Implicit Types (st : State) (e : exn) (data : list Coin).

Lemma fetchCoins_rejected st e :
  fetchCoins (Throws e) st
  = (Returns (),
     mkState (coins st) false (searchTerm st) (favorites st)
       (localStorage st) (console st ++ [(u "Error fetching coins:", e)])).
Proof. reflexivity. Qed.

Lemma fetchCoins_resolved st data :
  fetchCoins (Returns data) st
  = (Returns (),
     mkState data false (searchTerm st) (favorites st)
       (localStorage st) (console st)).
Proof. reflexivity. Qed.

Lemma polls_keep_last_response st gets :
  coins (run st (Poll_settled <$> gets)) = last_response (coins st) gets.
Proof.
  revert st. induction gets as [|[data|e] gets IH]; intros st; [done| |].
  - simpl. unfold run in IH. rewrite IH. by unfold step.
  - simpl. unfold run in IH. rewrite IH. by unfold step.
Qed.

End PollFacts.

(** C4: for every in-memory coin collection, a list poll that fails
    leaves the collection as it was before the attempt (the other stored
    data too), the failure is logged with [console.error] and not thrown
    ([fetchCoins] returns normally), and the loading flag is cleared. *)
Theorem fetchCoins_failure (st : State) (e : exn) :
  (fetchCoins (Throws e) st).1 = Returns ()
  ∧ coins (fetchCoins (Throws e) st).2 = coins st
  ∧ loading (fetchCoins (Throws e) st).2 = false
  ∧ console (fetchCoins (Throws e) st).2
    = console st ++ [(u "Error fetching coins:", e)]
  ∧ favorites (fetchCoins (Throws e) st).2 = favorites st
  ∧ localStorage (fetchCoins (Throws e) st).2 = localStorage st
  ∧ searchTerm (fetchCoins (Throws e) st).2 = searchTerm st.
Proof. by rewrite fetchCoins_rejected. Qed.

(** C5: for every successful list poll, the in-memory coin collection
    after the poll is exactly the response of that poll, whatever the
    collection was before: nothing of the previous state of the
    collection enters the new one. After a run of polls the collection
    is the response of the last one that succeeded. *)
Theorem fetchCoins_success (st : State) (data : list Coin) :
  (fetchCoins (Returns data) st).1 = Returns ()
  ∧ coins (fetchCoins (Returns data) st).2 = data
  ∧ loading (fetchCoins (Returns data) st).2 = false
  ∧ (∀ st', coins (fetchCoins (Returns data) st').2
            = coins (fetchCoins (Returns data) st).2)
  ∧ (∀ gets, coins (run st (Poll_settled <$> gets ++ [Returns data])) = data).
Proof.
  rewrite fetchCoins_resolved. repeat split.
  intros gets. rewrite polls_keep_last_response.
  generalize (coins st). induction gets as [|[d|e] gets IH]; intros before; simpl; auto.
Qed.

(** ** The detail view: [CoinDetail] *)

(** C8: for every coin identifier whose detail fetch fails or returns no
    record, [fetchCoinDetail] returns normally (it throws nothing), the
    loading state is cleared and the view, which showed the loading
    placeholder until then, shows the not-found state; a record is
    committed to the view only when the request succeeds with one. *)
Theorem fetchCoinDetail_not_found
    (axios_get : jsstring → outcome (option Coin)) (coinId : jsstring) :
  (∀ c, axios_get (CoinDetail.detail_url coinId) ≠ Returns (Some c)) →
  CoinDetail.render CoinDetail.initial = CoinDetail.Loading
  ∧ (CoinDetail.fetchCoinDetail axios_get coinId CoinDetail.initial).1
    = Returns ()
  ∧ CoinDetail.loading
      (CoinDetail.fetchCoinDetail axios_get coinId CoinDetail.initial).2
    = false
  ∧ CoinDetail.render
      (CoinDetail.fetchCoinDetail axios_get coinId CoinDetail.initial).2
    = CoinDetail.Coin_not_found
  ∧ (∀ axios_get' coinId' c,
       CoinDetail.coin
         (CoinDetail.fetchCoinDetail axios_get' coinId'
            CoinDetail.initial).2 = Some c
       ↔ axios_get' (CoinDetail.detail_url coinId') = Returns (Some c)).
Proof.
  intros Hget. split; [done|].
  assert (Hcommit : ∀ axios_get' coinId' c,
    CoinDetail.coin
      (CoinDetail.fetchCoinDetail axios_get' coinId' CoinDetail.initial).2
    = Some c
    ↔ axios_get' (CoinDetail.detail_url coinId') = Returns (Some c)).
  { intros g i c. unfold CoinDetail.fetchCoinDetail, finally, try_catch.
    unfold mbind, eff_bind, await.
    destruct (g (CoinDetail.detail_url i)) as [[c'|]|e]; simpl;
      split; intros H; by simplify_eq. }
  unfold CoinDetail.fetchCoinDetail, finally, try_catch in *.
  unfold mbind, eff_bind, await in *.
  destruct (axios_get (CoinDetail.detail_url coinId)) as [[c|]|e];
    [by destruct (Hget c) | |];
    (split; [done|]; split; [done|]; split; [done|]; exact Hcommit).
Qed.

Lemma fetchCoinDetail_not_found_witness :
  (∀ c : Coin,
     Throws (AxiosError (u "Request failed with status code 404"))
     ≠ Returns (Some c))
  ∧ CoinDetail.render
      (CoinDetail.fetchCoinDetail
         (λ _, Throws (AxiosError (u "Request failed with status code 404")))
         (u "no-such-coin") CoinDetail.initial).2
    = CoinDetail.Coin_not_found.
Proof.
  assert (H : ∀ c : Coin,
    Throws (AxiosError (u "Request failed with status code 404"))
    ≠ Returns (Some c)) by (intros c; discriminate).
  split; [exact H|].
  exact (proj1 (proj2 (proj2 (proj2
    (fetchCoinDetail_not_found
       (λ _, Throws (AxiosError (u "Request failed with status code 404")))
       (u "no-such-coin") H))))).
Defined.

(** ** The favorites store: persistence *)

Section PersistFacts.

Implicit Types (st : State) (ev : event).

Lemma toggle_writes_through st coinId :
  step st (Click_star coinId)
  = mkState (coins st) (loading st) (searchTerm st)
      (toggleFavorite coinId (favorites st))
      (<[u "favorites" :=
           JSON.stringify (toggleFavorite coinId (favorites st))]>
         (localStorage st))
      (console st).
Proof. reflexivity. Qed.

Lemma mounted_in_sync favs storage : in_sync (mounted favs storage).
Proof. unfold in_sync, mounted. cbn. apply lookup_insert_eq. Qed.

Lemma step_in_sync st ev : in_sync st → in_sync (step st ev).
Proof.
  intros H. destruct ev as [coinId|value|[data|e]].
  - rewrite toggle_writes_through. unfold in_sync. cbn.
    apply lookup_insert_eq.
  - exact H.
  - exact H.
  - exact H.
Qed.

Lemma run_in_sync st evs : in_sync st → in_sync (run st evs).
Proof.
  revert st. induction evs as [|ev evs IH]; intros st H; [done|].
  apply IH. by apply step_in_sync.
Qed.

End PersistFacts.

(** C9: every toggle of a favorite identifier writes the full updated
    favorites list through to the storage entry, in one write, so that
    the entry is the serialization of the list in memory right after the
    toggle; from the first render on, the same holds after every event
    of the component. *)
Theorem favorites_written_through
    (favs : list jsstring) (storage : gmap jsstring jsstring)
    (evs : list event) (coinId : jsstring) :
  let st := run (mounted favs storage) evs in
  in_sync st
  ∧ favorites (step st (Click_star coinId))
    = toggleFavorite coinId (favorites st)
  ∧ localStorage (step st (Click_star coinId))
    = <[u "favorites" :=
          JSON.stringify (toggleFavorite coinId (favorites st))]>
        (localStorage st)
  ∧ in_sync (step st (Click_star coinId)).
Proof.
  intros st.
  assert (H : in_sync st) by apply run_in_sync, mounted_in_sync.
  split; [done|]. split; [done|]. split; [done|].
  by apply step_in_sync.
Qed.

(** ** The card: direction of the 24h change *)

Section TrendFacts.

Lemma ltb_zero_correct (x : float) :
  PrimFloat.ltb 0 x = true ↔ greater_than_zero x.
Proof.
  rewrite FloatAxioms.ltb_spec. unfold greater_than_zero.
  change (Prim2SF 0) with (S754_zero false).
  destruct (Prim2SF x) as [s|s| |s m e]; try destruct s; cbn;
    split; (done || discriminate).
Qed.

Lemma ltb_zero_at_zero (x : float) :
  is_zero x → PrimFloat.ltb 0 x = false.
Proof.
  rewrite FloatAxioms.ltb_spec. unfold is_zero.
  change (Prim2SF 0) with (S754_zero false).
  by destruct (Prim2SF x).
Qed.

End TrendFacts.

(** C6: for every coin, the directional indicator of the 24h change on
    the list card is the upward one if and only if the percentage change
    is strictly greater than 0, and the downward one otherwise; for a
    change equal to 0 (of either sign) it is the downward one. The
    colour class follows the same test. *)
Theorem trend_24h_up_iff_positive (coin : Coin) :
  (trend_24h coin = ArrowTrendingUpIcon
   ↔ greater_than_zero (price_change_percentage_24h coin))
  ∧ (trend_24h coin = ArrowTrendingDownIcon
     ↔ ¬ greater_than_zero (price_change_percentage_24h coin))
  ∧ (is_zero (price_change_percentage_24h coin)
     → trend_24h coin = ArrowTrendingDownIcon)
  ∧ (trend_24h_class coin = u "text-green-500"
     ↔ trend_24h coin = ArrowTrendingUpIcon).
Proof.
  unfold trend_24h, trend_24h_class.
  pose proof (ltb_zero_correct (price_change_percentage_24h coin)) as H.
  pose proof (ltb_zero_at_zero (price_change_percentage_24h coin)) as H0.
  destruct (PrimFloat.ltb 0 (price_change_percentage_24h coin)).
  - split; [tauto|]. split.
    + split; [discriminate | intros Hn; destruct Hn; by apply H].
    + split; [intros Hz; by specialize (H0 Hz) | done].
  - split.
    + split; [discriminate | intros Hp; apply H in Hp; discriminate].
    + split; [|split; [done|]].
      * split; [intros _ Hp; apply H in Hp; discriminate | done].
      * split; intros Hx; [by vm_compute in Hx | discriminate].
Qed.

(** At a change of exactly 0 the card shows the downward icon. *)
Example trend_24h_at_zero :
  trend_24h (sample (u "bitcoin") 0 None) = ArrowTrendingDownIcon
  ∧ trend_24h (sample (u "bitcoin") (-0) None) = ArrowTrendingDownIcon
  ∧ trend_24h (sample (u "bitcoin") 0.5 None) = ArrowTrendingUpIcon.
Proof. by vm_compute. Qed.

(** ** The card: the supply paragraph *)

Section SupplyFacts.

Lemma uint_units_digits (d : Decimal.uint) :
  Forall (λ c, is_digit c = true) (uint_units d).
Proof. induction d; simpl; by constructor. Qed.

Lemma uint_units_nonempty (d : Decimal.uint) :
  d ≠ Decimal.Nil → uint_units d ≠ [].
Proof. by destruct d. Qed.

Lemma decimal_digits (n : N) : Forall (λ c, is_digit c = true) (decimal n).
Proof. apply uint_units_digits. Qed.

Lemma decimal_nonempty (n : N) : decimal n ≠ [].
Proof.
  apply uint_units_nonempty. destruct n as [|p]; [done|].
  apply Unsigned.to_uint_nonnil.
Qed.

(** Digits cut two places before their end. *)
Lemma cut_two (m : jsstring) :
  (3 ≤ length m)%nat →
  Forall (λ c, is_digit c = true) m →
  ∃ int d1 d2,
    take (length m - 2) m ++ u "." ++ drop (length m - 2) m
    = int ++ [46; d1; d2]
    ∧ int ≠ [] ∧ Forall (λ c, is_digit c = true) (int ++ [d1; d2]).
Proof.
  intros Hlen Hm.
  destruct (drop (length m - 2) m) as [|d1 [|d2 [|d3 t]]] eqn:E;
    pose proof (f_equal length E) as El; rewrite length_drop in El;
    simpl in El; try lia.
  exists (take (length m - 2) m), d1, d2. split; [done|]. split.
  - intros H. apply (f_equal length) in H. rewrite length_take in H.
    simpl in H. lia.
  - rewrite <- E. by rewrite take_drop.
Qed.

Lemma fixed_point_numeral (n : N) :
  ∃ int d1 d2,
    fixed_point n 2 = int ++ [46; d1; d2]
    ∧ int ≠ [] ∧ Forall (λ c, is_digit c = true) (int ++ [d1; d2]).
Proof.
  unfold fixed_point.
  pose proof (decimal_digits n) as Hd.
  pose proof (decimal_nonempty n) as Hne.
  destruct (decide (length (decimal n) ≤ 2)%nat) as [Hle|Hgt].
  - apply cut_two.
    + rewrite length_app, length_replicate. lia.
    + apply Forall_app. split; [|done].
      apply Forall_replicate. reflexivity.
  - apply cut_two; [lia | done].
Qed.

Lemma toFixed_numeral (x : float) :
  below_1e21 x → numeral_2 (toFixed x 2).
Proof.
  unfold below_1e21, toFixed, numeral_2.
  destruct (Prim2SF x) as [s|s| |s m e]; try done.
  - intros _. destruct (fixed_point_numeral 0) as (int & d1 & d2 & H).
    exists [], int, d1, d2. tauto.
  - intros ->.
    destruct (fixed_point_numeral (round_scaled (N.pos m) e 2))
      as (int & d1 & d2 & -> & H).
    exists (if s then u "-" else []), int, d1, d2.
    split; [done|]. split; [destruct s; auto | done].
Qed.

Lemma max_supply_text_absent (coin : Coin) :
  max_supply coin = None → max_supply_text coin = no_max_supply.
Proof. unfold max_supply_text. by intros ->. Qed.

Lemma max_supply_text_falsy (coin : Coin) (x : float) :
  max_supply coin = Some x → truthy_number x = false →
  max_supply_text coin = no_max_supply.
Proof. unfold max_supply_text. by intros -> ->. Qed.

Lemma max_supply_text_truthy (coin : Coin) (x : float) :
  max_supply coin = Some x → truthy_number x = true →
  max_supply_text coin = toFixed (x / 1000000)%float 2 ++ u "M".
Proof. unfold max_supply_text. by intros -> ->. Qed.

(** The falsy numbers are the zeros and [NaN]. *)
Lemma truthy_number_false (x : float) :
  truthy_number x = false ↔ is_zero x ∨ Prim2SF x = S754_nan.
Proof.
  unfold truthy_number, is_zero, is_nan.
  rewrite !FloatAxioms.eqb_spec. change (Prim2SF 0) with (S754_zero false).
  destruct (Prim2SF x) as [s|s| |s m e] eqn:E; cbn.
  - split; [auto | done].
  - destruct s; cbn; split; try done; intros [[]|]; done.
  - split; [auto | done].
  - destruct s; cbn; rewrite Z.compare_refl, Pos.compare_cont_refl; cbn;
      split; try done; intros [[]|]; done.
Qed.

End SupplyFacts.

(** C7, as amended: for every coin whose [max_supply] is [null], and
    for every coin whose [max_supply] is a falsy number (zero or [NaN]),
    the rendered supply string ends in the fixed literal of the source
    for an absent maximum, which holds no digit; for every coin whose
    [max_supply] is any other number it ends in
    [(max_supply / 1000000).toFixed(2)] followed by [M], a decimal
    numeral with two fraction digits whenever the quotient is finite and
    below [10^21] in magnitude. *)
Theorem max_supply_rendering (coin : Coin) :
  supply_text coin
  = u "Supply: " ++ toFixed (circulating_supply coin / 1000000)%float 2
      ++ u "M / " ++ max_supply_text coin
  ∧ (max_supply coin = None → max_supply_text coin = no_max_supply)
  ∧ (∀ x, max_supply coin = Some x →
          is_zero x ∨ Prim2SF x = S754_nan →
          max_supply_text coin = no_max_supply)
  ∧ (∀ x, max_supply coin = Some x →
          ¬ (is_zero x ∨ Prim2SF x = S754_nan) →
          max_supply_text coin = toFixed (x / 1000000)%float 2 ++ u "M"
          ∧ (below_1e21 (x / 1000000)%float →
             numeral_2 (toFixed (x / 1000000)%float 2)))
  ∧ Forall (λ c, is_digit c = false) no_max_supply.
Proof.
  split; [done|]. split; [apply max_supply_text_absent|]. split; [|split].
  - intros x Hx Hf. apply (max_supply_text_falsy coin x Hx).
    by apply truthy_number_false.
  - intros x Hx Hf. split; [|apply toFixed_numeral].
    apply (max_supply_text_truthy coin x Hx).
    destruct (truthy_number x) eqn:E; [done|].
    by apply truthy_number_false in E.
  - by repeat constructor.
Qed.

(** C7, as stated, fails: a maximum supply of 0 is a bounded number,
    and the card renders the literal for an absent maximum, not the
    numeral [0.00M]. *)
Lemma max_supply_zero_not_numeric :
  max_supply (sample (u "bitcoin") 0.5 (Some 0%float)) = Some 0%float
  ∧ toFixed (0 / 1000000)%float 2 ++ u "M" = u "0.00M"
  ∧ max_supply_text (sample (u "bitcoin") 0.5 (Some 0%float)) = no_max_supply
  ∧ max_supply_text (sample (u "bitcoin") 0.5 (Some 0%float)) ≠ u "0.00M".
Proof. do 3 (split; [by vm_compute|]). by vm_compute. Qed.

(** A card with a maximum supply of 21 million coins, and one with
    none. The literal for an absent maximum is the one of the source
    text, which is not the single code unit U+221E. *)
Example supply_text_samples :
  supply_text (sample (u "bitcoin") 0.5 (Some 21000000%float))
  = u "Supply: 19.80M / 21.00M"
  ∧ supply_text (sample (u "bitcoin") 0.5 None)
    = u "Supply: 19.80M / " ++ no_max_supply
  ∧ no_max_supply ≠ [8734].
Proof. split; [by vm_compute|]. split; by vm_compute. Qed.

(** ** [JSON.parse] and [JSON.stringify] *)

Import JSON.

Section ParserLengths.

Implicit Types (s r : jsstring).

Lemma skip_ws_length s : (length (skip_ws s) ≤ length s)%nat.
Proof.
  induction s as [|c s IH]; simpl; [done|].
  destruct (is_ws c); simpl; lia.
Qed.

Lemma skip_ws_cons s c r :
  skip_ws s = c :: r → (length r < length s)%nat.
Proof.
  intros H. pose proof (skip_ws_length s) as Hl. rewrite H in Hl.
  simpl in Hl. lia.
Qed.

Lemma span_digits_length s ds r :
  span_digits s = (ds, r) → (length r ≤ length s)%nat.
Proof.
  revert ds r. induction s as [|c s IH]; intros ds r; simpl.
  - intros [= <- <-]. done.
  - destruct (is_digit c).
    + destruct (span_digits s) as [ds' r'] eqn:E. intros [= <- <-].
      specialize (IH _ _ eq_refl). lia.
    + intros [= <- <-]. simpl. lia.
Qed.

Lemma prepend_length c o str r (n : nat) :
  (∀ str' r', o = Some (str', r') → (length r' < n)%nat) →
  prepend c o = Some (str, r) → (length r < n)%nat.
Proof.
  intros H. destruct o as [[str' r']|]; simpl; [|done].
  intros [= <- <-]. by eapply H.
Qed.

Lemma parse_chars_length_bounded (n : nat) s str r :
  (length s ≤ n)%nat →
  parse_chars s = Some (str, r) → (length r < length s)%nat.
Proof.
  revert s str r. induction n as [|n IH]; intros s str r Hn.
  - destruct s; [done | simpl in Hn; lia].
  - destruct s as [|c s]; [done|]. simpl in Hn. simpl.
    destruct (c =? 34); [intros [= <- <-]; simpl; lia|].
    destruct (c =? 92).
    + destruct s as [|e r1]; [done|].
      destruct (e =? 117).
      * destruct r1 as [|h1 [|h2 [|h3 [|h4 r2]]]]; try done.
        destruct (hex4 h1 h2 h3 h4); [|done].
        apply prepend_length. intros str' r' H.
        apply IH in H; simpl in *; lia.
      * destruct (unescape e); [|done].
        apply prepend_length. intros str' r' H.
        apply IH in H; simpl in *; lia.
    + destruct (c <? 32); [done|].
      apply prepend_length. intros str' r' H.
      apply IH in H; simpl in *; lia.
Qed.

Lemma parse_chars_length s str r :
  parse_chars s = Some (str, r) → (length r < length s)%nat.
Proof. by apply (parse_chars_length_bounded (length s)). Qed.

Lemma parse_number_length s lit r :
  parse_number s = Some (lit, r) → (length r < length s)%nat.
Proof.
  unfold parse_number.
  destruct (parse_sign s) as [sg s1] eqn:E1.
  assert (H1 : (length s1 ≤ length s)%nat).
  { destruct s as [|c s]; simpl in E1; [by simplify_eq|].
    destruct (c =? 45); simplify_eq; simpl; lia. }
  destruct (parse_int s1) as [[i s2]|] eqn:E2; simpl; [|done].
  assert (H2 : (length s2 < length s1)%nat).
  { destruct s1 as [|c s1']; simpl in E2; [done|].
    destruct (c =? 48); [simplify_eq; simpl; lia|].
    destruct (is_digit c); [|done].
    destruct (span_digits s1') as [ds r'] eqn:E. simplify_eq.
    apply span_digits_length in E. simpl. lia. }
  destruct (parse_frac s2) as [[f s3]|] eqn:E3; simpl; [|done].
  assert (H3 : (length s3 ≤ length s2)%nat).
  { destruct s2 as [|c s2']; simpl in E3; [by simplify_eq|].
    destruct (c =? 46); [|by simplify_eq].
    destruct (span_digits s2') as [ds r'] eqn:E.
    apply span_digits_length in E.
    destruct ds; simplify_eq. simpl. lia. }
  destruct (parse_exp s3) as [[e s4]|] eqn:E4; simpl; [|done].
  assert (H4 : (length s4 ≤ length s3)%nat).
  { destruct s3 as [|c s3']; simpl in E4; [by simplify_eq|].
    destruct ((c =? 101) || (c =? 69)); [|by simplify_eq].
    destruct s3' as [|c' r'].
    - simpl in E4. done.
    - destruct ((c' =? 43) || (c' =? 45)).
      + destruct (span_digits r') as [ds r2] eqn:E.
        apply span_digits_length in E. destruct ds; simplify_eq. simpl. lia.
      + destruct (span_digits (c' :: r')) as [ds r2] eqn:E.
        apply span_digits_length in E. destruct ds; simplify_eq.
        simpl in *. lia. }
  intros [= <- <-]. lia.
Qed.

Lemma parse_name_length name v s v' r :
  name ≠ [] → parse_name name v s = Done v' r → (length r < length s)%nat.
Proof.
  intros Hname. unfold parse_name.
  destruct (startsWith s name) eqn:E; [|done].
  intros [= <- <-]. apply startsWith_correct in E as [post ->].
  rewrite drop_app_length, length_app.
  destruct name; [done | simpl; lia].
Qed.



Lemma parse_value_step fuel s :
  parse_value (S fuel) s =
    match skip_ws s with
    | [] => Syntax
    | c :: r =>
        if c =? 34 then
          match parse_chars r with
          | Some (str, r') => Done (JString str) r'
          | None => Syntax
          end
        else if c =? 91 then
          match skip_ws r with
          | c' :: r' =>
              if c' =? 93 then Done (JArray []) r'
              else
                match parse_elements fuel (c' :: r') with
                | Done vs r'' => Done (JArray vs) r''
                | Syntax => Syntax
                | Fuel => Fuel
                end
          | [] => Syntax
          end
        else if c =? 123 then
          match skip_ws r with
          | c' :: r' =>
              if c' =? 125 then Done (JObject []) r'
              else
                match parse_members fuel (c' :: r') with
                | Done ms r'' => Done (JObject ms) r''
                | Syntax => Syntax
                | Fuel => Fuel
                end
          | [] => Syntax
          end
        else if c =? 116 then parse_name (u "true") (JBool true) (c :: r)
        else if c =? 102 then parse_name (u "false") (JBool false) (c :: r)
        else if c =? 110 then parse_name (u "null") JNull (c :: r)
        else
          match parse_number (c :: r) with
          | Some (lit, r') => Done (JNumber lit) r'
          | None => Syntax
          end
    end.
Proof. reflexivity. Qed.

Lemma parse_elements_step fuel s :
  parse_elements (S fuel) s =
    match parse_value fuel s with
    | Done v r =>
        match skip_ws r with
        | c :: r' =>
            if c =? 44 then
              match parse_elements fuel r' with
              | Done vs r'' => Done (v :: vs) r''
              | Syntax => Syntax
              | Fuel => Fuel
              end
            else if c =? 93 then Done [v] r'
            else Syntax
        | [] => Syntax
        end
    | Syntax => Syntax
    | Fuel => Fuel
    end.
Proof. reflexivity. Qed.

Lemma parse_members_step fuel s :
  parse_members (S fuel) s =
    match skip_ws s with
    | c :: r =>
        if c =? 34 then
          match parse_chars r with
          | Some (key, r1) =>
              match skip_ws r1 with
              | c1 :: r2 =>
                  if c1 =? 58 then
                    match parse_value fuel r2 with
                    | Done v r3 =>
                        match skip_ws r3 with
                        | c3 :: r4 =>
                            if c3 =? 44 then
                              match parse_members fuel r4 with
                              | Done ms r5 => Done ((key, v) :: ms) r5
                              | Syntax => Syntax
                              | Fuel => Fuel
                              end
                            else if c3 =? 125 then Done [(key, v)] r4
                            else Syntax
                        | [] => Syntax
                        end
                    | Syntax => Syntax
                    | Fuel => Fuel
                    end
                  else Syntax
              | [] => Syntax
              end
          | None => Syntax
          end
        else Syntax
    | [] => Syntax
    end.
Proof. reflexivity. Qed.

(** The facts on lengths that the equations in the context give. *)
Ltac lengths :=
  repeat match goal with
  | H : skip_ws _ = _ :: _ |- _ => apply skip_ws_cons in H
  | H : parse_chars _ = Some _ |- _ => apply parse_chars_length in H
  | H : parse_number _ = Some _ |- _ => apply parse_number_length in H
  | H : parse_name _ _ _ = Done _ _ |- _ =>
      apply parse_name_length in H; [|discriminate]
  end;
  simpl in *; try lia.

Lemma parsers_consume fuel :
  consumes (parse_value fuel) ∧ consumes (parse_elements fuel)
  ∧ consumes (parse_members fuel).
Proof.
  induction fuel as [|fuel (IHv & IHe & IHm)]; [by repeat split|].
  split; [|split]; intros s a r.
  - rewrite parse_value_step. intros H.
    repeat case_match; simplify_eq;
      repeat match goal with
      | H : parse_elements fuel _ = Done _ _ |- _ => apply IHe in H
      | H : parse_members fuel _ = Done _ _ |- _ => apply IHm in H
      end; lengths.
  - rewrite parse_elements_step. intros H.
    repeat case_match; simplify_eq;
      repeat match goal with
      | H : parse_value fuel _ = Done _ _ |- _ => apply IHv in H
      | H : parse_elements fuel _ = Done _ _ |- _ => apply IHe in H
      end; lengths.
  - rewrite parse_members_step. intros H.
    repeat case_match; simplify_eq;
      repeat match goal with
      | H : parse_value fuel _ = Done _ _ |- _ => apply IHv in H
      | H : parse_members fuel _ = Done _ _ |- _ => apply IHm in H
      end; lengths.
Qed.

(** The recursion never runs out of steps on a text it was given enough
    of them for. *)
Lemma parsers_terminate fuel :
  (∀ s, (2 * length s + 1 ≤ fuel)%nat → parse_value fuel s ≠ Fuel)
  ∧ (∀ s, (2 * length s + 2 ≤ fuel)%nat → parse_elements fuel s ≠ Fuel)
  ∧ (∀ s, (2 * length s + 2 ≤ fuel)%nat → parse_members fuel s ≠ Fuel).
Proof.
  induction fuel as [|fuel (IHv & IHe & IHm)].
  { repeat split; intros s Hs; lia. }
  destruct (parsers_consume fuel) as (Cv & Ce & Cm).
  split; [|split]; intros s Hs Hf.
  - rewrite parse_value_step in Hf. unfold parse_name in Hf.
    repeat case_match; simplify_eq.
    + match goal with H : parse_elements fuel ?t = Fuel |- _ =>
        apply (IHe t); [lengths | exact H] end.
    + match goal with H : parse_members fuel ?t = Fuel |- _ =>
        apply (IHm t); [lengths | exact H] end.
  - rewrite parse_elements_step in Hf.
    repeat case_match; simplify_eq.
    + match goal with H : parse_elements fuel ?t = Fuel |- _ =>
        apply (IHe t); [|exact H] end.
      match goal with H : parse_value fuel _ = Done _ _ |- _ =>
        apply Cv in H end. lengths.
    + match goal with H : parse_value fuel ?t = Fuel |- _ =>
        apply (IHv t); [lia | exact H] end.
  - rewrite parse_members_step in Hf.
    repeat case_match; simplify_eq.
    + match goal with H : parse_members fuel ?t = Fuel |- _ =>
        apply (IHm t); [|exact H] end.
      match goal with H : parse_value fuel _ = Done _ _ |- _ =>
        apply Cv in H end. lengths.
    + match goal with H : parse_value fuel ?t = Fuel |- _ =>
        apply (IHv t); [lengths | exact H] end.
Qed.

Lemma parse_terminates (text : jsstring) : parse text ≠ Throws RangeError.
Proof.
  unfold parse.
  pose proof (proj1 (parsers_terminate (2 * length text + 1)) text) as H.
  destruct (parse_value (2 * length text + 1) text) as [v rest| |];
    [by destruct (skip_ws rest) | done | by destruct H].
Qed.

End ParserLengths.

Section RoundTrip.

Implicit Types (s rest tail : jsstring) (c d : N).

Lemma hex_value_digit d : d < 16 → hex_value (hex_digit d) = Some d.
Proof.
  intros Hd.
  assert (H : d ∈ [0; 1; 2; 3; 4; 5; 6; 7; 8; 9; 10; 11; 12; 13; 14; 15]).
  { rewrite !elem_of_cons. lia. }
  rewrite !elem_of_cons in H. rewrite elem_of_nil in H.
  repeat (destruct H as [->|H]; [reflexivity|]). done.
Qed.

Lemma hex4_unicode c :
  c < 65536 →
  hex4 (hex_digit (c / 4096)) (hex_digit (c / 256 mod 16))
    (hex_digit (c / 16 mod 16)) (hex_digit (c mod 16)) = Some c.
Proof.
  intros Hc. unfold hex4.
  rewrite !hex_value_digit
    by (zify; Z.to_euclidean_division_equations; lia).
  simpl. f_equal. zify. Z.to_euclidean_division_equations. lia.
Qed.

Lemma parse_chars_plain c tail :
  c ≠ 34 → c ≠ 92 → 32 ≤ c →
  parse_chars (c :: tail) = prepend c (parse_chars tail).
Proof.
  intros H1 H2 H3. simpl.
  apply N.eqb_neq in H1 as ->. apply N.eqb_neq in H2 as ->.
  apply N.ltb_ge in H3 as ->. done.
Qed.

Lemma parse_chars_unicode c tail :
  c < 65536 →
  parse_chars (unicode_escape c ++ tail) = prepend c (parse_chars tail).
Proof.
  intros Hc. unfold unicode_escape.
  change (parse_chars ([92; 117; hex_digit (c / 4096);
            hex_digit (c / 256 mod 16); hex_digit (c / 16 mod 16);
            hex_digit (c mod 16)] ++ tail))
    with (match hex4 (hex_digit (c / 4096)) (hex_digit (c / 256 mod 16))
                  (hex_digit (c / 16 mod 16)) (hex_digit (c mod 16)) with
          | Some cu => prepend cu (parse_chars tail)
          | None => None
          end).
  by rewrite hex4_unicode.
Qed.

Lemma parse_chars_escape_unit c tail :
  c < 65536 →
  parse_chars (escape_unit c ++ tail) = prepend c (parse_chars tail).
Proof.
  intros Hc. unfold escape_unit.
  destruct (N.eqb_spec c 8) as [->|?]; [reflexivity|].
  destruct (N.eqb_spec c 9) as [->|?]; [reflexivity|].
  destruct (N.eqb_spec c 10) as [->|?]; [reflexivity|].
  destruct (N.eqb_spec c 12) as [->|?]; [reflexivity|].
  destruct (N.eqb_spec c 13) as [->|?]; [reflexivity|].
  destruct (N.eqb_spec c 34) as [->|?]; [reflexivity|].
  destruct (N.eqb_spec c 92) as [->|?]; [reflexivity|].
  destruct ((c <? 32) || is_lead c || is_trail c) eqn:E.
  - by apply parse_chars_unicode.
  - apply orb_false_elim in E as [E _]. apply orb_false_elim in E as [E _].
    apply N.ltb_ge in E. by apply parse_chars_plain.
Qed.

Lemma parse_chars_surrogate c tail :
  is_lead c = true ∨ is_trail c = true →
  parse_chars (c :: tail) = prepend c (parse_chars tail).
Proof.
  unfold is_lead, is_trail. rewrite !andb_true_iff, !N.leb_le. intros H.
  apply parse_chars_plain; lia.
Qed.

Lemma quote_units_step c s :
  quote_units (c :: s) =
    if is_lead c then
      match s with
      | d :: s' =>
          if is_trail d then c :: d :: quote_units s'
          else escape_unit c ++ quote_units s
      | [] => escape_unit c
      end
    else escape_unit c ++ quote_units s.
Proof. reflexivity. Qed.

Lemma parse_chars_quote_units_bounded (n : nat) s rest :
  (length s ≤ n)%nat → well_formed s →
  parse_chars (quote_units s ++ 34 :: rest) = Some (s, rest).
Proof.
  revert s. induction n as [|n IH]; intros s Hn Hs.
  { destruct s; [done | simpl in Hn; lia]. }
  destruct s as [|c r]; [done|].
  apply Forall_cons in Hs as [Hc Hr]. simpl in Hn.
  rewrite quote_units_step.
  destruct (is_lead c) eqn:Elead.
  - destruct r as [|d r'].
    + by rewrite parse_chars_escape_unit.
    + destruct (is_trail d) eqn:Etrail.
      * apply Forall_cons in Hr as [Hd Hr']. simpl in Hn.
        rewrite <- !app_comm_cons.
        rewrite (parse_chars_surrogate c) by auto.
        rewrite (parse_chars_surrogate d) by auto.
        by rewrite IH by (done || lia).
      * rewrite <- app_assoc, parse_chars_escape_unit by done.
        by rewrite IH by (done || lia).
  - rewrite <- app_assoc, parse_chars_escape_unit by done.
    by rewrite IH by (done || lia).
Qed.

Lemma parse_chars_quote_units s rest :
  well_formed s →
  parse_chars (quote_units s ++ 34 :: rest) = Some (s, rest).
Proof. by apply (parse_chars_quote_units_bounded (length s)). Qed.

Lemma skip_ws_stays c s : is_ws c = false → skip_ws (c :: s) = c :: s.
Proof. intros H. simpl. by rewrite H. Qed.

Lemma parse_value_quote fuel s rest :
  well_formed s →
  parse_value (S fuel) (quote s ++ rest) = Done (JString s) rest.
Proof.
  intros Hs. rewrite parse_value_step. unfold quote.
  rewrite <- app_comm_cons, <- app_assoc, skip_ws_stays by done.
  change (34 =? 34) with true. cbv iota.
  change ([34] ++ rest) with (34 :: rest).
  by rewrite parse_chars_quote_units.
Qed.

Lemma parse_elements_strings ids :
  ∀ i fuel rest,
    (length ids + 2 ≤ fuel)%nat → Forall well_formed (i :: ids) →
    parse_elements fuel (join_comma (map quote (i :: ids)) ++ 93 :: rest)
    = Done (map JString (i :: ids)) rest.
Proof.
  induction ids as [|i' ids IH]; intros i fuel rest Hfuel Hall;
    apply Forall_cons in Hall as [Hi Hids];
    destruct fuel as [|[|fuel]]; simpl in Hfuel; try lia;
    rewrite parse_elements_step.
  - change (join_comma (map quote ([i]))) with (quote i).
    rewrite parse_value_quote, skip_ws_stays by done. done.
  - change (join_comma (map quote (i :: i' :: ids)))
      with (quote i ++ 44 :: join_comma (map quote (i' :: ids))).
    rewrite <- app_assoc, parse_value_quote by done.
    rewrite <- app_comm_cons, skip_ws_stays by done.
    change (44 =? 44) with true. cbv iota.
    by rewrite IH by (done || lia).
Qed.

Lemma join_comma_length ids :
  (length ids ≤ length (join_comma (map quote (ids))))%nat.
Proof.
  induction ids as [|i ids IH]; [done|].
  destruct ids as [|i' ids].
  - change (join_comma (map quote ([i]))) with (34 :: quote_units i ++ [34]).
    simpl. lia.
  - change (join_comma (map quote (i :: i' :: ids)))
      with (quote i ++ 44 :: join_comma (map quote (i' :: ids))).
    rewrite length_app.
    change (length (44 :: ?x)) with (S (length x)).
    change (length (i :: ?x)) with (S (length x)).
    lia.
Qed.

Lemma parse_stringify ids :
  Forall well_formed ids →
  parse (stringify ids) = Returns (JArray (map JString (ids))).
Proof.
  intros Hall. unfold parse.
  pose proof (join_comma_length ids) as Hlen.
  assert (Hfuel : ∃ fuel,
    (2 * length (stringify ids) + 1)%nat = S fuel ∧ (length ids + 1 ≤ fuel)%nat).
  { exists (2 * length (stringify ids))%nat. split; [lia|].
    assert (length (stringify ids)
            = S (length (join_comma (map quote (ids))) + 1)) as ->
      by (unfold stringify; by rewrite length_cons, length_app).
    lia. }
  destruct Hfuel as (fuel & -> & Hfuel).
  rewrite parse_value_step. unfold stringify.
  destruct ids as [|i ids]; [done|].
  rewrite skip_ws_stays by done.
  change (91 =? 34) with false. change (91 =? 91) with true. cbv iota.
  assert (Hq : ∃ q, join_comma (map quote (i :: ids)) = 34 :: q)
    by (destruct ids; simpl; eauto).
  destruct Hq as [q Hq]. rewrite Hq.
  rewrite <- app_comm_cons, skip_ws_stays by done.
  change (34 =? 93) with false. cbv iota.
  rewrite app_comm_cons, <- Hq.
  rewrite (parse_elements_strings ids i fuel []) by (done || simpl in *; lia).
  done.
Qed.

End RoundTrip.

(** ** The favorites store: [load] *)

Section LoadFacts.

Implicit Types (storage : gmap jsstring jsstring) (text : jsstring).

Lemma load_present storage text :
  storage !! u "favorites" = Some text → text ≠ [] →
  load storage = parse text.
Proof. unfold load. intros -> Ht. by destruct text. Qed.

Lemma parse_throws_syntax text e : parse text = Throws e → e = SyntaxError.
Proof.
  intros H. pose proof (parse_terminates text) as Ht. revert H Ht.
  unfold parse.
  destruct (parse_value (2 * length text + 1) text) as [v rest| |];
    [destruct (skip_ws rest)|..]; intros H Ht; by simplify_eq.
Qed.

(** What [persist] wrote is read back as the list it was written from. *)
Lemma load_in_sync (st : State) :
  in_sync st → Forall well_formed (favorites st) →
  load (localStorage st) = Returns (JArray (map JString (favorites st))).
Proof.
  intros Hsync Hwf. rewrite (load_present _ _ Hsync) by done.
  by apply parse_stringify.
Qed.

End LoadFacts.

(** C1, as amended: [load] returns the empty list when the entry is
    absent and when it is the empty string; for any other stored text it
    returns what [JSON.parse] makes of the text when the text is
    parseable, which for the serialization of an identifier list is that
    list, and when the text is unparseable [load] throws the
    [SyntaxError] of [JSON.parse]. *)
Theorem load_outcomes (storage : gmap jsstring jsstring) :
  (storage !! u "favorites" = None → load storage = Returns (JArray []))
  ∧ (storage !! u "favorites" = Some ([] : jsstring) →
     load storage = Returns (JArray []))
  ∧ (∀ (text : jsstring) v,
       storage !! u "favorites" = Some text → text ≠ [] →
       parse text = Returns v → load storage = Returns v)
  ∧ (∀ ids,
       storage !! u "favorites" = Some (stringify ids) →
       Forall well_formed ids →
       load storage = Returns (JArray (map JString ids)))
  ∧ (∀ text : jsstring,
       storage !! u "favorites" = Some text → text ≠ [] →
       (∀ v, parse text ≠ Returns v) → load storage = Throws SyntaxError).
Proof.
  split; [intros H; unfold load; by rewrite H|].
  split; [intros H; unfold load; by rewrite H|].
  split; [|split].
  - intros text v Hs Ht Hp. by rewrite (load_present _ _ Hs Ht).
  - intros ids Hs Hwf. rewrite (load_present _ _ Hs) by done.
    by apply parse_stringify.
  - intros text Hs Ht Hp. rewrite (load_present _ _ Hs Ht).
    destruct (parse text) as [v|e] eqn:E; [by destruct (Hp v)|].
    by rewrite (parse_throws_syntax _ _ E).
Qed.

(** C1, as stated, fails: with the unparseable text [{oops] stored,
    [load] does not return the empty list; it throws. *)
Lemma load_corrupt_throws :
  parse (u "{oops") = Throws SyntaxError
  ∧ load {[ u "favorites" := u "{oops" ]} = Throws SyntaxError
  ∧ load {[ u "favorites" := u "{oops" ]} ≠ Returns (JArray []).
Proof.
  split; [by vm_compute|].
  assert (H : load {[ u "favorites" := u "{oops" ]} = Throws SyntaxError).
  { rewrite (load_present _ (u "{oops")); [by vm_compute | | done].
    apply lookup_singleton_eq. }
  split; [exact H | by rewrite H].
Qed.

(** The favorites [bitcoin; ethereum] as [persist] stores them, and
    [load] on that entry. *)
Example load_stored_favorites :
  stringify [u "bitcoin"; u "ethereum"]
  = [91; 34] ++ u "bitcoin" ++ [34; 44; 34] ++ u "ethereum" ++ [34; 93]
  ∧ load {[ u "favorites" := stringify [u "bitcoin"; u "ethereum"] ]}
    = Returns (JArray [JString (u "bitcoin"); JString (u "ethereum")]).
Proof.
  split; [by vm_compute|].
  rewrite (load_present _ (stringify [u "bitcoin"; u "ethereum"]));
    [by vm_compute | apply lookup_singleton_eq | done].
Qed.

(** ** Runs of events *)

Section RunFacts.

Implicit Types (st : State) (ev : event) (evs : list event).
Implicit Types (x coinId : jsstring).

Lemma run_cons st ev evs : run st (ev :: evs) = run (step st ev) evs.
Proof. reflexivity. Qed.

Lemma step_favorites st ev :
  favorites (step st ev)
  = match ev with
    | Click_star coinId => toggleFavorite coinId (favorites st)
    | _ => favorites st
    end.
Proof. by destruct ev as [coinId|value|[data|e]]. Qed.

Lemma run_coins st evs :
  coins (run st evs) = last_response (coins st) (settled evs).
Proof.
  revert st. induction evs as [|[coinId|value|[data|e]] evs IH]; intros st;
    [done|..]; rewrite run_cons, IH; reflexivity.
Qed.

Lemma run_searchTerm st evs :
  searchTerm (run st evs) = last_search (searchTerm st) evs.
Proof.
  revert st. induction evs as [|[coinId|value|[data|e]] evs IH]; intros st;
    [done|..]; rewrite run_cons, IH; reflexivity.
Qed.

Lemma run_loading st evs :
  loading (run st evs)
  = match settled evs with [] => loading st | _ :: _ => false end.
Proof.
  revert st. induction evs as [|[coinId|value|[data|e]] evs IH]; intros st;
    [done|..]; rewrite run_cons, IH; simpl; try done;
    by destruct (settled evs).
Qed.

Lemma run_console st evs :
  console (run st evs)
  = console st
    ++ map (λ e, (u "Error fetching coins:", e)) (rejections (settled evs)).
Proof.
  revert st. induction evs as [|[coinId|value|[data|e]] evs IH]; intros st;
    [by rewrite app_nil_r|..]; rewrite run_cons, IH; try done.
  simpl. by rewrite <- app_assoc.
Qed.

Lemma toggle_well_formed (l : list jsstring) coinId :
  Forall well_formed l → well_formed coinId →
  Forall well_formed (toggleFavorite coinId l).
Proof.
  intros Hl Hid. unfold toggleFavorite. case_bool_decide.
  - rewrite Forall_forall in *. intros y Hy.
    apply list_elem_of_filter in Hy as [_ Hy]. by apply Hl.
  - apply Forall_app. split; [done | by constructor].
Qed.

Lemma run_well_formed st evs :
  Forall well_formed (favorites st) → Forall well_formed (clicked evs) →
  Forall well_formed (favorites (run st evs)).
Proof.
  revert st. induction evs as [|[coinId|value|[data|e]] evs IH];
    intros st Hst Hevs; [done|..]; rewrite run_cons; apply IH; try done.
  - apply Forall_cons in Hevs as [Hid _]. by apply toggle_well_formed.
  - by apply Forall_cons in Hevs as [_ ?].
Qed.

Lemma run_NoDup st evs :
  NoDup (favorites st) → NoDup (favorites (run st evs)).
Proof.
  revert st. induction evs as [|ev evs IH]; intros st Hst; [done|].
  rewrite run_cons. apply IH. rewrite step_favorites.
  destruct ev; [by apply toggle_NoDup | done | done].
Qed.

Lemma run_other_keys st evs (key : jsstring) :
  key ≠ u "favorites" →
  localStorage (run st evs) !! key = localStorage st !! key.
Proof.
  intros Hkey. revert st.
  induction evs as [|[coinId|value|[data|e]] evs IH]; intros st;
    [done|..]; rewrite run_cons, IH; try done.
  rewrite toggle_writes_through. simpl. by rewrite lookup_insert_ne.
Qed.

End RunFacts.

(** ** More on the filter view *)

Section FilterMore.

Implicit Types (s t p : jsstring) (coin : Coin) (coins : list Coin).

Lemma includes_trans t s p :
  includes t s = true → includes s p = true → includes t p = true.
Proof.
  rewrite !includes_correct.
  intros (pre & post & ->) (pre' & post' & ->).
  exists (pre ++ pre'), (post' ++ post). by rewrite <- !app_assoc.
Qed.

Lemma includes_length t p :
  includes t p = true → (length p ≤ length t)%nat.
Proof.
  rewrite includes_correct. intros (pre & post & ->).
  rewrite !length_app. lia.
Qed.

Lemma includes_refl t : includes t t = true.
Proof. apply includes_correct. exists [], []. by rewrite app_nil_r. Qed.

Lemma matches_narrow s s' coin :
  includes (toLowerCase s') (toLowerCase s) = true →
  matches s' coin = true → matches s coin = true.
Proof.
  unfold matches. rewrite !orb_true_iff. intros Hs [H|H]; [left|right];
    by eapply includes_trans.
Qed.

Lemma filter_filter_implied {A} (f g : A → bool) (l : list A) :
  (∀ x, f x = true → g x = true) →
  List.filter f (List.filter g l) = List.filter f l.
Proof.
  intros Hfg. induction l as [|x l IH]; [done|]. simpl.
  destruct (g x) eqn:Eg; simpl.
  - by rewrite IH.
  - destruct (f x) eqn:Ef; [|done].
    apply Hfg in Ef. congruence.
Qed.

Lemma filteredCoins_elem coins s coin :
  coin ∈ filteredCoins coins s ↔ coin ∈ coins ∧ matches s coin = true.
Proof.
  unfold filteredCoins. rewrite !list_elem_of_In. apply filter_In.
Qed.

End FilterMore.

(** ** More on the card *)

Section CardMore.

Implicit Types (coin : Coin).

Lemma gt_zero_correct (x : option float) :
  gt_zero x = true ↔ ∃ y, x = Some y ∧ greater_than_zero y.
Proof.
  destruct x as [y|]; simpl.
  - rewrite ltb_zero_correct. split; [by exists y | by intros (? & [= <-] & ?)].
  - split; [done | by intros (? & ? & _)].
Qed.

Lemma fixed_point_no_minus (n : N) rest : fixed_point n 2 ≠ 45 :: rest.
Proof.
  destruct (fixed_point_numeral n) as (int & d1 & d2 & -> & Hne & Hd).
  destruct int as [|c int]; [done|].
  apply Forall_app in Hd as [Hd _]. apply Forall_cons in Hd as [Hc _].
  intros [= -> _]. done.
Qed.

Lemma exponential_no_minus (m e : N) rest : exponential m e ≠ 45 :: rest.
Proof.
  unfold exponential.
  destruct (shortest m e 1 17) as [[[s n] k]|]; [|done].
  pose proof (decimal_nonempty s) as Hne.
  pose proof (decimal_digits s) as Hd.
  destruct (decimal s) as [|c ds]; [done|].
  apply Forall_cons in Hd as [Hc _].
  intros [= -> _]. done.
Qed.

(** A numeral that starts with a minus sign is the one of a negative
    number. *)
Lemma toFixed_minus (x : float) rest :
  toFixed x 2 = 45 :: rest → ¬ greater_than_zero x.
Proof.
  unfold toFixed, greater_than_zero.
  destruct (Prim2SF x) as [s|s| |s m e];
    [tauto | destruct s; [tauto | intros H; by vm_compute in H] | tauto |].
  destruct s; [tauto|]. intros H _. simpl in H.
  destruct (magnitude_ge (N.pos m) e (10 ^ 21));
    [by apply exponential_no_minus in H | by apply fixed_point_no_minus in H].
Qed.

End CardMore.

(** ** The detail route *)

Section RouteFacts.

Implicit Types (s seg pre : jsstring) (sep : N).

Lemma split_nonempty sep s : split sep s ≠ [].
Proof.
  destruct s as [|c r]; [done|]. simpl.
  destruct (c =? sep); [done|]. by destruct (split sep r).
Qed.

Lemma split_none sep s : sep ∉ s → split sep s = [s].
Proof.
  induction s as [|c r IH]; [done|]. intros H.
  apply not_elem_of_cons in H as [Hc Hr]. simpl.
  destruct (N.eqb_spec c sep) as [->|_]; [done|]. by rewrite IH.
Qed.

Lemma split_at sep pre s :
  split sep (pre ++ sep :: s) = split sep pre ++ split sep s.
Proof.
  induction pre as [|c pre IH]; simpl.
  - by rewrite N.eqb_refl.
  - rewrite IH. destruct (c =? sep); [done|].
    pose proof (split_nonempty sep pre) as Hne.
    by destruct (split sep pre).
Qed.

Lemma split_last_after sep pre s :
  sep ∉ s → last (split sep (pre ++ sep :: s)) = Some s.
Proof.
  intros Hs. rewrite split_at, (split_none sep s) by done.
  apply last_snoc.
Qed.

(** A text holds no separator, or a last one. *)
Lemma last_separator sep s :
  sep ∉ s ∨ ∃ pre r, s = pre ++ sep :: r ∧ sep ∉ r.
Proof.
  induction s as [|c s IH]; [left; apply not_elem_of_nil|].
  destruct IH as [Hs|(pre & r & -> & Hr)].
  - destruct (decide (c = sep)) as [->|Hc].
    + right. by exists [], s.
    + left. by apply not_elem_of_cons.
  - right. by exists (c :: pre), r.
Qed.

End RouteFacts.

(** ** Further properties of the component *)

(** X1: whatever the storage held at the first render, after it and any
    run of events the entry of the favorites parses back to the list in
    memory, so that [load] at the next start returns that list (for
    favorites and clicked identifiers that are well-formed strings). *)
Theorem favorites_survive_reload
    (favs : list jsstring) (storage : gmap jsstring jsstring)
    (evs : list event) :
  Forall well_formed favs → Forall well_formed (clicked evs) →
  load (localStorage (run (mounted favs storage) evs))
  = Returns (JArray (map JString (favorites (run (mounted favs storage) evs)))).
Proof.
  intros Hfavs Hevs. apply load_in_sync.
  - apply run_in_sync, mounted_in_sync.
  - by apply run_well_formed.
Qed.

Lemma favorites_survive_reload_witness :
  Forall well_formed [u "bitcoin"]
  ∧ Forall well_formed (clicked [Click_star (u "ethereum")])
  ∧ load (localStorage
            (run (mounted [u "bitcoin"] ∅) [Click_star (u "ethereum")]))
    = Returns (JArray (map JString
        (favorites
           (run (mounted [u "bitcoin"] ∅) [Click_star (u "ethereum")])))).
Proof.
  assert (H1 : Forall well_formed [u "bitcoin"])
    by (repeat (constructor; try reflexivity)).
  assert (H2 : Forall well_formed (clicked [Click_star (u "ethereum")]))
    by (repeat (constructor; try reflexivity)).
  split; [exact H1|]. split; [exact H2|].
  exact (favorites_survive_reload [u "bitcoin"] ∅
           [Click_star (u "ethereum")] H1 H2).
Defined.

(** X2: after any run of events an identifier is a favorite exactly when
    its membership at the start was flipped an odd number of times: it
    is in the list if it was and its star was clicked an even number of
    times, or it was not and its star was clicked an odd number of
    times. Clicks on other stars, search input and polls do not
    matter. *)
Theorem favorites_click_parity (st : State) (evs : list event)
    (x : jsstring) :
  x ∈ favorites (run st evs)
  ↔ if Nat.even (clicks x evs) then x ∈ favorites st else x ∉ favorites st.
Proof.
  revert st. induction evs as [|ev evs IH]; intros st; [done|].
  rewrite run_cons, IH, step_favorites.
  destruct ev as [coinId|value|get]; [|done|done].
  simpl. destruct (bool_decide_reflect (coinId = x)) as [->|Hne].
  - change (1 + clicks x evs)%nat with (S (clicks x evs)).
    rewrite Nat.even_succ, <- Nat.negb_even.
    destruct (Nat.even (clicks x evs)); simpl.
    + apply toggle_flips.
    + rewrite toggle_flips. destruct (decide (x ∈ favorites st)); tauto.
  - simpl.
    destruct (Nat.even (clicks x evs));
      by rewrite toggle_others by done.
Qed.

(** X3: a third toggle of the same identifier gives the list of the
    first one: from the first toggle on, two more toggles change
    nothing, also in the order of the list. *)
Theorem toggleFavorite_thrice (l : list jsstring) (coinId : jsstring) :
  toggleFavorite coinId (toggleFavorite coinId (toggleFavorite coinId l))
  = toggleFavorite coinId l.
Proof.
  destruct (decide (coinId ∈ l)) as [Hin|Hout].
  - rewrite (toggle_present l) by done.
    apply toggle_twice_absent. rewrite list_elem_of_filter. tauto.
  - by rewrite (toggle_twice_absent l).
Qed.

(** X4: a favorites list without duplicates stays without duplicates
    through every run of events. *)
Theorem favorites_stay_NoDup (st : State) (evs : list event) :
  NoDup (favorites st) → NoDup (favorites (run st evs)).
Proof. apply run_NoDup. Qed.

Lemma favorites_stay_NoDup_witness :
  NoDup (favorites (mounted [u "bitcoin"] ∅))
  ∧ NoDup (favorites
             (run (mounted [u "bitcoin"] ∅)
                [Click_star (u "ethereum"); Click_star (u "bitcoin")])).
Proof.
  assert (H : NoDup (favorites (mounted [u "bitcoin"] ∅))).
  { refine (bool_decide_unpack _ _). vm_compute. exact I. }
  split; [exact H|].
  exact (favorites_stay_NoDup (mounted [u "bitcoin"] ∅)
           [Click_star (u "ethereum"); Click_star (u "bitcoin")] H).
Defined.

(** X5: the component writes no entry of the storage but the one of the
    favorites: every other key holds after the first render and any run
    of events what it held before. *)
Theorem storage_other_keys_untouched
    (favs : list jsstring) (storage : gmap jsstring jsstring)
    (evs : list event) (key : jsstring) :
  key ≠ u "favorites" →
  localStorage (run (mounted favs storage) evs) !! key = storage !! key.
Proof.
  intros Hkey. rewrite run_other_keys by done.
  unfold mounted. simpl. by rewrite lookup_insert_ne.
Qed.

Lemma storage_other_keys_untouched_witness :
  u "theme" ≠ u "favorites"
  ∧ localStorage
      (run (mounted [] {[ u "theme" := u "dark" ]})
         [Click_star (u "bitcoin")]) !! u "theme"
    = ({[ u "theme" := u "dark" ]} : gmap jsstring jsstring) !! u "theme".
Proof.
  assert (H : u "theme" ≠ u "favorites") by (by vm_compute).
  split; [exact H|].
  exact (storage_other_keys_untouched [] {[ u "theme" := u "dark" ]}
           [Click_star (u "bitcoin")] (u "theme") H).
Defined.

(** X6: at the root path the component shows the loading screen from
    the first render until the first request of the poll settles,
    whatever else happens; from then on it shows the grid of cards, and
    the cards are those of the last response that succeeded (none when
    none did), filtered by the last value of the search input. *)
Theorem root_page_after_events
    (favs : list jsstring) (storage : gmap jsstring jsstring)
    (evs : list event) :
  render_list (run (mounted favs storage) evs)
  = match settled evs with
    | [] => Loading_screen
    | _ :: _ =>
        Card_grid (filteredCoins (last_response [] (settled evs))
                     (last_search [] evs))
    end.
Proof.
  unfold render_list.
  rewrite run_loading, run_coins, run_searchTerm.
  by destruct (settled evs).
Qed.

(** X7: when every request of the poll so far was rejected, and at
    least one was, the root page is the grid with no card in it,
    whatever the search input holds: neither the loading screen nor an
    error view. *)
Theorem root_page_after_failures
    (favs : list jsstring) (storage : gmap jsstring jsstring)
    (evs : list event) :
  settled evs ≠ [] →
  Forall (λ get, ∃ e, get = Throws e) (settled evs) →
  render_list (run (mounted favs storage) evs) = Card_grid [].
Proof.
  intros Hne Hall. unfold render_list.
  rewrite run_loading, run_coins, run_searchTerm.
  destruct (settled evs) as [|get gets] eqn:E; [done|].
  assert (Hlast : ∀ before, last_response before (get :: gets) = before).
  { revert Hall. generalize (get :: gets).
    induction 1 as [|g gs [e ->] _ IH]; intros before; [done | apply IH]. }
  by rewrite Hlast.
Qed.

Lemma root_page_after_failures_witness :
  settled [Poll_settled (Throws (AxiosError (u "Network Error")));
           Change_search (u "bit")] ≠ []
  ∧ Forall (λ get, ∃ e, get = Throws e)
      (settled [Poll_settled (Throws (AxiosError (u "Network Error")));
                Change_search (u "bit")])
  ∧ render_list
      (run (mounted [] ∅)
         [Poll_settled (Throws (AxiosError (u "Network Error")));
          Change_search (u "bit")])
    = Card_grid [].
Proof.
  assert (H1 : settled
                 [Poll_settled (Throws (AxiosError (u "Network Error")));
                  Change_search (u "bit")] ≠ []) by done.
  assert (H2 : Forall (λ get, ∃ e, get = Throws e)
                 (settled
                    [Poll_settled (Throws (AxiosError (u "Network Error")));
                     Change_search (u "bit")])).
  { repeat constructor. by eexists. }
  split; [exact H1|]. split; [exact H2|].
  exact (root_page_after_failures [] ∅ _ H1 H2).
Defined.

(** X8: the calls of [console.error] of the component are, in order,
    one for each request of the poll that was rejected, with its error:
    no rejection goes unlogged, and nothing else is logged. *)
Theorem console_logs_rejections
    (favs : list jsstring) (storage : gmap jsstring jsstring)
    (evs : list event) :
  console (run (mounted favs storage) evs)
  = map (λ e, (u "Error fetching coins:", e)) (rejections (settled evs)).
Proof. by rewrite run_console. Qed.

(** X9: events of different kinds commute: a click on a star and a
    settling poll, a click on a star and a change of the search input,
    a change of the search input and a settling poll leave the same
    state in either order. *)
Theorem events_commute (st : State) (coinId value : jsstring)
    (get : outcome (list Coin)) :
  step (step st (Click_star coinId)) (Poll_settled get)
  = step (step st (Poll_settled get)) (Click_star coinId)
  ∧ step (step st (Click_star coinId)) (Change_search value)
    = step (step st (Change_search value)) (Click_star coinId)
  ∧ step (step st (Change_search value)) (Poll_settled get)
    = step (step st (Poll_settled get)) (Change_search value).
Proof. by destruct get. Qed.

(** X10: a search string whose lower case holds the lower case of an
    earlier search string narrows the earlier result: filtering the
    earlier result gives what filtering the full list gives. For ASCII
    strings this is so whenever the new string holds the earlier one
    (typing more); and filtering twice by the same string changes
    nothing. *)
Theorem filteredCoins_narrows (coins : list Coin) (s : jsstring) :
  (∀ s', includes (toLowerCase s') (toLowerCase s) = true →
         filteredCoins (filteredCoins coins s) s' = filteredCoins coins s')
  ∧ (∀ pre post, ascii pre → ascii s → ascii post →
       filteredCoins (filteredCoins coins s) (pre ++ s ++ post)
       = filteredCoins coins (pre ++ s ++ post))
  ∧ filteredCoins (filteredCoins coins s) s = filteredCoins coins s.
Proof.
  assert (H : ∀ s', includes (toLowerCase s') (toLowerCase s) = true →
    filteredCoins (filteredCoins coins s) s' = filteredCoins coins s').
  { intros s' Hs'. apply filter_filter_implied.
    intros c. by apply matches_narrow. }
  split; [exact H|]. split.
  - intros pre post Hpre Hs Hpost. apply H.
    rewrite (toLowerCase_ascii (pre ++ s ++ post))
      by (rewrite !ascii_app; auto).
    rewrite (toLowerCase_ascii s) by done.
    apply includes_correct. rewrite !map_app. eauto.
  - apply H, includes_refl.
Qed.

(** X11: a coin of the list is found by its own display name and by
    its own symbol. *)
Theorem filteredCoins_finds_own_name (coins : list Coin) (coin : Coin) :
  coin ∈ coins →
  coin ∈ filteredCoins coins (name coin)
  ∧ coin ∈ filteredCoins coins (symbol coin).
Proof.
  intros Hin. rewrite !filteredCoins_elem. unfold matches.
  split; (split; [done|]); rewrite includes_refl; [done|].
  apply orb_true_r.
Qed.

Lemma filteredCoins_finds_own_name_witness :
  sample (u "bitcoin") 0.5 None ∈ [sample (u "bitcoin") 0.5 None]
  ∧ sample (u "bitcoin") 0.5 None
    ∈ filteredCoins [sample (u "bitcoin") 0.5 None] (u "Bitcoin").
Proof.
  assert (H : sample (u "bitcoin") 0.5 None
              ∈ [sample (u "bitcoin") 0.5 None]) by apply list_elem_of_here.
  split; [exact H|].
  exact (proj1 (filteredCoins_finds_own_name _ _ H)).
Defined.

(** X12: a search string whose lower case is longer than the lower
    cases of both the display name and the symbol of a coin never
    selects it. *)
Theorem filteredCoins_long_term
    (coins : list Coin) (coin : Coin) (s : jsstring) :
  (length (toLowerCase (name coin)) < length (toLowerCase s))%nat →
  (length (toLowerCase (symbol coin)) < length (toLowerCase s))%nat →
  coin ∉ filteredCoins coins s.
Proof.
  intros Hn Hs. rewrite filteredCoins_elem. intros [_ Hm].
  unfold matches in Hm. apply orb_true_iff in Hm as [Hm|Hm];
    apply includes_length in Hm; lia.
Qed.

Lemma filteredCoins_long_term_witness :
  (length (toLowerCase (name (sample (u "bitcoin") 0.5 None)))
   < length (toLowerCase (u "bitcoin cash")))%nat
  ∧ (length (toLowerCase (symbol (sample (u "bitcoin") 0.5 None)))
     < length (toLowerCase (u "bitcoin cash")))%nat
  ∧ sample (u "bitcoin") 0.5 None
    ∉ filteredCoins [sample (u "bitcoin") 0.5 None] (u "bitcoin cash").
Proof.
  assert (H1 : (length (toLowerCase (name (sample (u "bitcoin") 0.5 None)))
                < length (toLowerCase (u "bitcoin cash")))%nat)
    by (vm_compute; lia).
  assert (H2 : (length (toLowerCase (symbol (sample (u "bitcoin") 0.5 None)))
                < length (toLowerCase (u "bitcoin cash")))%nat)
    by (vm_compute; lia).
  split; [exact H1|]. split; [exact H2|].
  exact (filteredCoins_long_term _ _ _ H1 H2).
Defined.

(** X13: the indicator of the 1h change, whose field is optional, is
    the upward one exactly when the field is present and strictly
    greater than 0; its colour class follows the icon; with the field
    absent the icon is the downward one, the class the red one, and the
    text shows no number. *)
Theorem trend_1h_optional (coin : Coin) :
  (trend_1h coin = ArrowTrendingUpIcon
   ↔ ∃ y, price_change_percentage_1h_in_currency coin = Some y
          ∧ greater_than_zero y)
  ∧ (trend_1h_class coin = u "text-green-500"
     ↔ trend_1h coin = ArrowTrendingUpIcon)
  ∧ (price_change_percentage_1h_in_currency coin = None →
     trend_1h coin = ArrowTrendingDownIcon
     ∧ trend_1h_class coin = u "text-red-500"
     ∧ change_1h_text coin = u "1h: %").
Proof.
  unfold trend_1h, trend_1h_class, change_1h_text.
  pose proof (gt_zero_correct (price_change_percentage_1h_in_currency coin))
    as H.
  split; [|split].
  - destruct (gt_zero _); split;
      first [done | tauto | intros Hy; apply H in Hy; discriminate].
  - destruct (gt_zero _); split;
      first [done | intros Hx; by vm_compute in Hx].
  - by intros ->.
Qed.

(** X14: a 24h change that is written with a minus sign never carries
    the upward icon or the green class. *)
Theorem minus_sign_means_down (coin : Coin) (rest : jsstring) :
  change_24h_text coin = u "24h: -" ++ rest →
  trend_24h coin = ArrowTrendingDownIcon
  ∧ trend_24h_class coin = u "text-red-500".
Proof.
  unfold change_24h_text, trend_24h, trend_24h_class. intros H.
  change (u "24h: -" ++ rest) with (u "24h: " ++ 45 :: rest) in H.
  apply app_inv_head in H.
  destruct (toFixed (price_change_percentage_24h coin) 2) as [|c t] eqn:E;
    [by vm_compute in H|].
  assert (c = 45) as -> by (by injection H).
  apply toFixed_minus in E.
  destruct (PrimFloat.ltb 0 (price_change_percentage_24h coin)) eqn:El;
    [|done].
  by apply ltb_zero_correct in El.
Qed.

Lemma minus_sign_means_down_witness :
  change_24h_text (sample (u "bitcoin") (-2.5) None)
  = u "24h: -" ++ u "2.50%"
  ∧ trend_24h (sample (u "bitcoin") (-2.5) None) = ArrowTrendingDownIcon.
Proof.
  assert (H : change_24h_text (sample (u "bitcoin") (-2.5) None)
              = u "24h: -" ++ u "2.50%") by (by vm_compute).
  split; [exact H|].
  exact (proj1 (minus_sign_means_down _ _ H)).
Defined.

(** X15: a click on the star of a card flips the class of the star of
    that card (filled to outlined and back) and leaves the star of
    every card of another coin as it was. *)
Theorem star_flips_on_click (st : State) (coin : Coin) :
  (star_class (favorites (step st (Click_star (id coin)))) coin
   = u "fill-current"
   ↔ star_class (favorites st) coin = u "stroke-current fill-none")
  ∧ (∀ other,
       id other ≠ id coin →
       star_class (favorites (step st (Click_star (id coin)))) other
       = star_class (favorites st) other).
Proof.
  rewrite step_favorites. unfold star_class. split.
  - pose proof (toggle_flips (favorites st) (id coin)) as H.
    do 2 case_bool_decide; split; intros Hx; try done;
      try (by vm_compute in Hx); tauto.
  - intros other Hne.
    pose proof (toggle_others (favorites st) (id coin) (id other) Hne) as H.
    do 2 case_bool_decide; try done; tauto.
Qed.

(** X17: the identifier the detail route takes from a path is what
    follows the last slash of the path: it never holds a slash, it is
    the whole path when the path holds none, and it is empty for a path
    that ends in a slash. *)
Theorem coinId_of_pathname_last_segment (pathname : jsstring) :
  (47 ∉ coinId_of_pathname pathname)
  ∧ (47 ∉ pathname → coinId_of_pathname pathname = pathname)
  ∧ (∀ pre i, 47 ∉ i → coinId_of_pathname (pre ++ 47 :: i) = i)
  ∧ coinId_of_pathname (pathname ++ [47]) = [].
Proof.
  assert (Hnone : ∀ p, 47 ∉ p → coinId_of_pathname p = p).
  { intros p Hp. unfold coinId_of_pathname. rewrite split_none by done.
    by destruct p. }
  assert (Hlast : ∀ pre i, 47 ∉ i → coinId_of_pathname (pre ++ 47 :: i) = i).
  { intros pre i Hi. unfold coinId_of_pathname.
    rewrite split_last_after by done. by destruct i. }
  split; [|split; [apply Hnone | split; [apply Hlast|]]].
  - destruct (last_separator 47 pathname) as [H|(pre & r & -> & Hr)].
    + by rewrite Hnone.
    + by rewrite Hlast.
  - apply Hlast, not_elem_of_nil.
Qed.

(** X18: [fetchCoinDetail] never throws, whatever the request does; it
    calls [console.error] once when the request is rejected and not at
    all when it resolves, with a record or with none; it always clears
    the loading state, and on a response with a record the view shows
    the details of that record. *)
Theorem fetchCoinDetail_outcomes
    (axios_get : jsstring → outcome (option Coin)) (coinId : jsstring) :
  (CoinDetail.fetchCoinDetail axios_get coinId CoinDetail.initial).1
  = Returns ()
  ∧ CoinDetail.console
      (CoinDetail.fetchCoinDetail axios_get coinId CoinDetail.initial).2
    = match axios_get (CoinDetail.detail_url coinId) with
      | Throws e => [(u "Error fetching coin details:", e)]
      | Returns _ => []
      end
  ∧ CoinDetail.loading
      (CoinDetail.fetchCoinDetail axios_get coinId CoinDetail.initial).2
    = false
  ∧ (∀ c, axios_get (CoinDetail.detail_url coinId) = Returns (Some c) →
          CoinDetail.render
            (CoinDetail.fetchCoinDetail axios_get coinId
               CoinDetail.initial).2
          = CoinDetail.Details c).
Proof.
  unfold CoinDetail.fetchCoinDetail, finally, try_catch.
  unfold mbind, eff_bind, await.
  destruct (axios_get (CoinDetail.detail_url coinId)) as [[c|]|e]; simpl;
    repeat split; try done; by intros c' [= <-].
Qed.
